(** * GAL: entities of the 3D projective geometric algebra

    A shallow embedding of [public/gal/entity.hpp] and [public/gal/pga.hpp].
    The two headers are clients of the symbolic engine ([expression.hpp],
    [engine.hpp], [geometric_algebra.hpp]); the parts of the engine they
    rely on are modelled from the specification and marked as such. *)

From Stdlib Require Import ZArith List Bool Lia QArith Qcanon SpecFloat.
Import ListNotations.
Local Open Scope Z_scope.

(** ** Machine integers *)

(** [uint32_t] arithmetic wraps modulo 2^32 (entity ids). *)
Definition u32 (x : Z) : Z := x mod 4294967296.

(** [uint8_t] arithmetic wraps modulo 2^8 (blade tags, the loop counter of
    [entity::select]). *)
Definition u8 (x : Z) : Z := x mod 256.

(** ** Symbolic expression data ([expression.hpp]) *)

Module Expr.

(** Modelled from the spec: the exact rational coefficient type [rat] of
    the absent [expression.hpp] (numerator and denominator); the named
    constants used by the entity headers are given their evident values. *)
Definition rat : Type := Q.

Definition one : rat := 1%Q.
Definition zero : rat := 0%Q.
Definition minus_one : rat := (-1)%Q.
Definition minus_one_half : rat := (-1 # 2)%Q.
Definition rat_of (n : Z) : rat := (n # 1)%Q.

(** Modelled from the spec: [ind] of the absent [expression.hpp], "a
    reference to a run-time-supplied numeric input paired with an
    exponent-like multiplicity".  Field order as in [ind{id, one}]. *)
Record ind : Type := mk_ind { ind_id : Z; ind_degree : rat }.

(** Modelled from the spec: [mon] of the absent [expression.hpp],
    "rational coefficient, rational weight, indeterminate count, index into
    indeterminate list".  Field order as in [mon{one, one, 1, N}].
    [width_t] counters are natural numbers. *)
Record mon : Type :=
  mk_mon { mon_q : rat; mon_degree : rat; mon_count : nat; mon_ind_offset : nat }.

(** Modelled from the spec: [term] of the absent [expression.hpp],
    "monomial count, index into monomial list, blade id".  Field order as
    in [term{1, N, E}]. *)
Record term : Type :=
  mk_term { term_count : nat; term_mon_offset : nat; term_element : Z }.

(** Modelled from the spec: [mv_size] of the absent [expression.hpp], the
    three counters of a multivector, in the order of the template
    arguments of [mv<A, I, M, T>]: indeterminates, monomials, terms. *)
Record mv_size : Type := mk_mv_size { sz_ind : nat; sz_mon : nat; sz_term : nat }.

(** Modelled from the spec: [mv<A, I, M, T>] of the absent
    [expression.hpp]: the counters followed by the three flat arrays.
    [mv_cap] records the template arguments [I], [M], [T] (the array
    capacities); each list holds the initialisers written in the source,
    in order.  Slots of an array beyond its initialisers are
    value-initialised in C++ and are not represented. *)
Record mv : Type :=
  mk_mv { mv_cap : mv_size; size : mv_size;
          inds : list ind; mons : list mon; terms : list term }.

(** The indeterminates a monomial ranges over: [count] entries of the
    indeterminate array starting at [ind_offset]. *)
Definition mon_inds (m : mv) (mo : mon) : list ind :=
  firstn (mon_count mo) (skipn (mon_ind_offset mo) (inds m)).

(** The monomials a term ranges over. *)
Definition term_mons (m : mv) (t : term) : list mon :=
  firstn (term_count t) (skipn (term_mon_offset t) (mons m)).

(** Every input id reached from a monomial of the multivector. *)
Definition referenced_ids (m : mv) : list Z :=
  flat_map (fun mo => map ind_id (mon_inds m mo)) (mons m).

(** Every monomial's range lies inside the stored indeterminate list. *)
Definition mon_ranges_ok (m : mv) : bool :=
  forallb (fun mo => (mon_ind_offset mo + mon_count mo <=? length (inds m))%nat)
          (mons m).

(** The contiguous id range of [n] inputs starting at [id]. *)
Definition id_range (id : Z) (n : nat) : list Z :=
  map (fun k => u32 (id + Z.of_nat k)) (seq 0 n).

(** The counters agree with what is stored. *)
Definition counters_match (m : mv) : Prop :=
  sz_ind (size m) = length (inds m) /\
  sz_mon (size m) = length (mons m) /\
  sz_term (size m) = length (terms m).

(** The counters fit the capacities of the multivector's type. *)
Definition counters_fit (m : mv) : Prop :=
  (sz_ind (size m) <= sz_ind (mv_cap m))%nat /\
  (sz_mon (size m) <= sz_mon (mv_cap m))%nat /\
  (sz_term (size m) <= sz_term (mv_cap m))%nat.

(** Boolean form of the two invariants together. *)
Definition size_invariant (m : mv) : bool :=
  (sz_ind (size m) =? length (inds m))%nat &&
  (sz_mon (size m) =? length (mons m))%nat &&
  (sz_term (size m) =? length (terms m))%nat &&
  (sz_ind (size m) <=? sz_ind (mv_cap m))%nat &&
  (sz_mon (size m) <=? sz_mon (mv_cap m))%nat &&
  (sz_term (size m) <=? sz_term (mv_cap m))%nat.

End Expr.
Import Expr.

(** ** Numeric value types *)

(** The operations the entity headers use on their value type [T]:
    [T{}], [T{1}], unary minus, [+], [*], [/]. *)
Class Numeric (T : Type) : Type := {
  t_zero : T;
  t_one  : T;
  t_opp  : T -> T;
  t_add  : T -> T -> T;
  t_mul  : T -> T -> T;
  t_div  : T -> T -> T;
  t_of_Z : Z -> T
}.

(** Floating value types additionally have [std::sqrt] and [NAN]. *)
Class Floating (T : Type) {NT : Numeric T} : Type := {
  t_sqrt : T -> T;
  t_nan  : T
}.

(** Exact rational arithmetic. *)
#[export] Instance Numeric_Qc : Numeric Qc := {
  t_zero := 0%Qc;
  t_one  := 1%Qc;
  t_opp  := Qcopp;
  t_add  := Qcplus;
  t_mul  := Qcmult;
  t_div  := Qcdiv;
  t_of_Z := fun n => Q2Qc (inject_Z n)
}.

(** IEEE 754 binary floating point with [prec] bits of mantissa and
    maximal exponent [emax], round to nearest even. *)
Definition Numeric_ieee (prec emax : Z) : Numeric spec_float := {|
  t_zero := S754_zero false;
  t_one  := binary_normalize prec emax 1 0 false;
  t_opp  := SFopp;
  t_add  := SFadd prec emax;
  t_mul  := SFmul prec emax;
  t_div  := SFdiv prec emax;
  t_of_Z := fun n => binary_normalize prec emax n 0 false
|}.

Definition Floating_ieee (prec emax : Z) : @Floating spec_float (Numeric_ieee prec emax) := {|
  t_sqrt := SFsqrt prec emax;
  t_nan  := S754_nan
|}.

(** [float] and [double]. *)
Definition binary32 : Numeric spec_float := Numeric_ieee 24 128.
Definition binary64 : Numeric spec_float := Numeric_ieee 53 1024.

(** ** Generic entities ([entity.hpp]) *)

Module Entity.

(** [detail::construct_ie]: one indeterminate, one monomial and one term
    per blade of the pack [E...]; [N...] is the index pack. *)
Definition construct_ie (id : Z) (N : list nat) (E : list Z) : mv :=
  let count := length E in
  mk_mv (mk_mv_size count count count)
        (mk_mv_size count count count)
        (map (fun n => mk_ind (u32 (id + Z.of_nat n)) one) N)
        (map (fun n => mk_mon one one 1 n) N)
        (map (fun ne => mk_term 1 (fst ne) (snd ne)) (combine N E)).

Section Generic.
Context {T : Type} {NT : Numeric T}.

(** [entity<A, T, E...>]: the static blade list [elements] and the
    coefficient array [data_]. *)
Record entity : Type := mk_entity { elements : list Z; data_ : list T }.

(** [entity::ie]. *)
Definition ie (E : list Z) (id : Z) : mv :=
  construct_ie id (seq 0 (length E)) E.

Definition entity_size (E : list Z) : nat := length E.
Definition ind_count (E : list Z) : nat := length E.

(** The loop of [entity::select(uint8_t) const].  The counter [i] is a
    [uint8_t] compared against [elements.size()]; [fuel] bounds the
    number of iterations and [None] stands for a loop that has not
    finished.  The entity is threaded through and returned next to the
    result. *)
Fixpoint select_loop (fuel : nat) (en : entity) (e : Z) (i : Z)
  : option (T * entity) :=
  match fuel with
  | O => None
  | S fuel' =>
      if i =? Z.of_nat (length (elements en)) then Some (t_zero, en)
      else if nth (Z.to_nat i) (elements en) 0 =? e
           then Some (nth (Z.to_nat i) (data_ en) t_zero, en)
           else select_loop fuel' en e (u8 (i + 1))
  end.

Definition select_fuel (fuel : nat) (en : entity) (e : Z) : option (T * entity) :=
  select_loop fuel en e 0.

(** 257 tests of the loop condition suffice whenever the loop ends. *)
Definition select (en : entity) (e : Z) : option (T * entity) :=
  select_fuel 257 en e.

(** [entity::select<S...>() const]: one [select] per requested blade. *)
Fixpoint select_pack (en : entity) (S : list Z) : option (list T) :=
  match S with
  | [] => Some []
  | s :: S' =>
      match select en s, select_pack en S' with
      | Some (v, _), Some vs => Some (v :: vs)
      | _, _ => None
      end
  end.

(** [entity::get(size_t)]: "Unreachable", returns [T{}]. *)
Definition get (en : entity) (i : nat) : T := t_zero.

(** [scalar<A, T>]. *)
Record scalar : Type := mk_scalar { value : T }.

Definition scalar_get (s : scalar) (i : nat) : T := t_zero.
End Generic.

Arguments entity T : clear implicits.
Arguments scalar T : clear implicits.

(** [scalar::ie]. *)
Definition scalar_ie (id : Z) : mv :=
  mk_mv (mk_mv_size 1 1 1) (mk_mv_size 1 1 1)
        [mk_ind id one]
        [mk_mon one (rat_of 1) 0 1]
        [mk_term 1 0 0].

Definition scalar_ind_count : nat := 1.

End Entity.

(** ** The projective geometric algebra of Euclidean 3-space ([pga.hpp]) *)

Module Pga.
Import Entity.

(** Blade tags: bit [i] of the mask stands for the basis vector [e_i]. *)
Definition e : Z := 0.
Definition e0 : Z := 1.
Definition e1 : Z := 2.
Definition e2 : Z := 4.
Definition e3 : Z := 8.
Definition e01 : Z := 3.
Definition e02 : Z := 5.
Definition e03 : Z := 9.
Definition e12 : Z := 6.
Definition e13 : Z := 10.
Definition e23 : Z := 12.
Definition e012 : Z := 7.
Definition e013 : Z := 11.
Definition e023 : Z := 13.
Definition e123 : Z := 14.
Definition e1234 : Z := 15.

(** [motor<T>] is [entity<pga_algebra, T, 0, 0b11, 0b101, 0b110, 0b1001,
    0b1010, 0b1100, 0b1111>]. *)
Definition motor_elements : list Z := [0; 3; 5; 6; 9; 10; 12; 15].

Module rotor.
Section Rotor.
Context {T : Type} {NT : Numeric T} {FT : Floating T}.

(** The union's named view; [data] is its array view. *)
Record rotor : Type :=
  mk { cos_theta : T; sin_theta : T; x : T; y : T; z : T }.

Definition data (r : rotor) : list T :=
  [cos_theta r; sin_theta r; x r; y r; z r].

Definition size : nat := 5.
Definition ind_count : nat := 5.

Definition normalize (r : rotor) : rotor :=
  let l2_inv :=
    t_div t_one
          (t_sqrt (t_add (t_add (t_mul (x r) (x r)) (t_mul (y r) (y r)))
                         (t_mul (z r) (z r)))) in
  let x' := t_mul (x r) l2_inv in
  let y' := t_mul (y r) l2_inv in
  let z' := t_mul (z r) l2_inv in
  mk (cos_theta r) (sin_theta r) x' y' z'.

Definition get (r : rotor) (i : nat) : T := t_nan.
End Rotor.
Arguments rotor T : clear implicits.

Definition ie (id : Z) : mv :=
  mk_mv (mk_mv_size 8 4 4) (mk_mv_size 7 4 4)
        [mk_ind id one;
         mk_ind (u32 (id + 1)) one;
         mk_ind (u32 (id + 4)) one;
         mk_ind (u32 (id + 1)) one;
         mk_ind (u32 (id + 3)) one;
         mk_ind (u32 (id + 1)) one;
         mk_ind (u32 (id + 2)) one]
        [mk_mon one one 1 0; mk_mon one one 1 1;
         mk_mon minus_one (rat_of 2) 2 2; mk_mon one (rat_of 2) 2 3]
        [mk_term 1 0 0; mk_term 1 1 6; mk_term 1 2 10; mk_term 1 3 12].
End rotor.

Module translator.
Section Translator.
Context {T : Type} {NT : Numeric T} {FT : Floating T}.

Record translator : Type := mk { d : T; x : T; y : T; z : T }.

Definition data (t : translator) : list T := [d t; x t; y t; z t].

Definition size : nat := 4.
Definition ind_count : nat := 4.

Definition normalize (t : translator) : translator :=
  let l2_inv :=
    t_div t_one
          (t_sqrt (t_add (t_add (t_mul (x t) (x t)) (t_mul (y t) (y t)))
                         (t_mul (z t) (z t)))) in
  let x' := t_mul (x t) l2_inv in
  let y' := t_mul (y t) l2_inv in
  let z' := t_mul (z t) l2_inv in
  mk (d t) x' y' z'.

Definition get (t : translator) (i : nat) : T := t_nan.
End Translator.
Arguments translator T : clear implicits.

Definition ie (id : Z) : mv :=
  mk_mv (mk_mv_size 6 4 4) (mk_mv_size 6 4 4)
        [mk_ind id one;
         mk_ind (u32 (id + 1)) one;
         mk_ind id one;
         mk_ind (u32 (id + 1)) one;
         mk_ind id one;
         mk_ind (u32 (id + 2)) one]
        [mk_mon one zero 0 0;
         mk_mon minus_one_half (rat_of 2) 2 1;
         mk_mon minus_one_half (rat_of 2) 2 2;
         mk_mon minus_one_half (rat_of 2) 2 3]
        [mk_term 1 0 0; mk_term 1 1 3; mk_term 1 2 5; mk_term 1 3 9].
End translator.

Module plane.
Section Plane.
Context {T : Type} {NT : Numeric T} {FT : Floating T}.

Record plane : Type := mk { d : T; x : T; y : T; z : T }.

Definition data (p : plane) : list T := [d p; x p; y p; z p].

Definition size : nat := 4.
Definition ind_count : nat := 4.

(** The blades read by the converting constructor. *)
Definition selected : list Z := [1; 2; 4; 8].

(** [plane(entity)]: [data{in.select<0b1, 0b10, 0b100, 0b1000>()}]. *)
Definition of_entity (en : entity T) : option plane :=
  match select_pack en selected with
  | Some [a; b; c; d'] => Some (mk a b c d')
  | _ => None
  end.

Definition get (p : plane) (i : nat) : T := t_nan.
End Plane.
Arguments plane T : clear implicits.

Definition ie (id : Z) : mv := construct_ie id (seq 0 4) [1; 2; 4; 8].
End plane.

Module point.
Section Point.
Context {T : Type} {NT : Numeric T} {FT : Floating T}.

Record point : Type := mk { x : T; y : T; z : T }.

Definition data (p : point) : list T := [x p; y p; z p].

Definition size : nat := 3.
Definition ind_count : nat := 3.

Definition selected : list Z := [7; 11; 13; 14].

(** [point(entity)]: the three trivector slots scaled by the inverse of
    the [e123] slot. *)
Definition of_entity (en : entity T) : option point :=
  match select_pack en selected with
  | Some [i0; i1; i2; i3] =>
      let w_inv := t_div t_one i3 in
      let z' := t_mul (t_opp i0) w_inv in
      let y' := t_mul i1 w_inv in
      let x' := t_mul (t_opp i2) w_inv in
      Some (mk x' y' z')
  | _ => None
  end.

Definition get (p : point) (i : nat) : T := t_nan.
End Point.
Arguments point T : clear implicits.

Definition ie (id : Z) : mv :=
  mk_mv (mk_mv_size 3 4 4) (mk_mv_size 3 4 4)
        [mk_ind (u32 (id + 2)) one; mk_ind (u32 (id + 1)) one; mk_ind id one]
        [mk_mon minus_one one 1 0; mk_mon one one 1 1;
         mk_mon minus_one one 1 2; mk_mon one zero 0 0]
        [mk_term 1 0 7; mk_term 1 1 11; mk_term 1 2 13; mk_term 1 3 14].
End point.

Module vector.
Section Vector.
Context {T : Type} {NT : Numeric T} {FT : Floating T}.

Record vector : Type := mk { x : T; y : T; z : T }.

Definition data (v : vector) : list T := [x v; y v; z v].

Definition size : nat := 3.
Definition ind_count : nat := 3.

Definition selected : list Z := [7; 11; 13].

Definition of_entity (en : entity T) : option vector :=
  match select_pack en selected with
  | Some [i0; i1; i2] => Some (mk (t_opp i2) i1 (t_opp i0))
  | _ => None
  end.

Definition get (v : vector) (i : nat) : T := t_nan.
End Vector.
Arguments vector T : clear implicits.

Definition ie (id : Z) : mv :=
  mk_mv (mk_mv_size 3 3 3) (mk_mv_size 3 4 4)
        [mk_ind (u32 (id + 2)) one; mk_ind (u32 (id + 1)) one; mk_ind id one]
        [mk_mon minus_one one 1 0; mk_mon one one 1 1; mk_mon minus_one one 1 2]
        [mk_term 1 0 7; mk_term 1 1 11; mk_term 1 2 13].
End vector.

Module line.
Section Line.
Context {T : Type} {NT : Numeric T} {FT : Floating T}.

Record line : Type := mk { dx : T; dy : T; dz : T; mx : T; my : T; mz : T }.

Definition data (l : line) : list T := [dx l; dy l; dz l; mx l; my l; mz l].

Definition size : nat := 6.
Definition ind_count : nat := 6.

(** [line(std::array<T, 6>)]. *)
Definition of_array (a : list T) : option line :=
  match a with
  | [a0; a1; a2; a3; a4; a5] => Some (mk a0 a1 a2 a3 a4 a5)
  | _ => None
  end.

(** The blades read by [line(entity)]:
    [select<0b11, 0b101, 0b100, 0b1001, 0b1010, 0b1100>]. *)
Definition selected : list Z := [3; 5; 4; 9; 10; 12].

Definition of_entity (en : entity T) : option line :=
  match select_pack en selected with
  | Some a => of_array a
  | None => None
  end.

Definition get (l : line) (i : nat) : T := t_nan.
End Line.
Arguments line T : clear implicits.

Definition ie (id : Z) : mv :=
  mk_mv (mk_mv_size 6 6 6) (mk_mv_size 6 6 6)
        [mk_ind (u32 (id + 3)) one; mk_ind (u32 (id + 4)) one;
         mk_ind (u32 (id + 2)) one; mk_ind (u32 (id + 5)) one;
         mk_ind (u32 (id + 1)) one; mk_ind id one]
        [mk_mon one one 1 0; mk_mon one one 1 1; mk_mon one one 1 2;
         mk_mon one one 1 3; mk_mon one one 1 4; mk_mon one one 1 5]
        [mk_term 1 0 3; mk_term 1 1 5; mk_term 1 2 6;
         mk_term 1 3 9; mk_term 1 4 10; mk_term 1 5 12].

(** The blade of each term [line::ie] emits, in order. *)
Definition ie_elements : list Z := map term_element (terms (ie 0)).
End line.

End Pga.

(** ** The symbolic engine, as far as the entities use it *)

Module Engine.
Import Entity.

(** *** The algebra *)

(** Modelled from the spec: [metric<P, V, R>] of the absent
    [geometric_algebra.hpp], "a metric signature (counts of basis vectors
    squaring to +1, -1, 0)". *)
Record metric : Type := mk_metric { metric_p : nat; metric_v : nat; metric_r : nat }.

Definition dimension (m : metric) : nat :=
  (metric_p m + metric_v m + metric_r m)%nat.

(** The three kinds of basis vector a signature counts. *)
Inductive kind : Type := k_positive | k_negative | k_degenerate.

Definition kind_square (k : kind) : Z :=
  match k with
  | k_positive => 1
  | k_negative => -1
  | k_degenerate => 0
  end.

Definition kind_count (m : metric) (k : kind) : nat :=
  match k with
  | k_positive => metric_p m
  | k_negative => metric_v m
  | k_degenerate => metric_r m
  end.

(** Modelled from the spec: [algebra<metric>] of the absent
    [geometric_algebra.hpp].  The spec fixes how many basis vectors there
    are of each kind and not which of [e0], [e1], ... they are: the order
    in which the three kinds are laid out over the basis vectors is the
    [layout] of the algebra, and nothing below depends on one layout. *)
Record algebra : Type := mk_algebra { alg_metric : metric; alg_layout : list kind }.

(** The squares of [e0], [e1], ... in order. *)
Definition squares (a : algebra) : list Z :=
  flat_map (fun k => repeat (kind_square k) (kind_count (alg_metric a) k))
           (alg_layout a).

(** Modelled from the spec: the square of the basis vector [e_i], read off
    the signature in the layout of the algebra. *)
Definition basis_square (a : algebra) (i : nat) : Z := nth i (squares a) 1.

(** The six orders of the three kinds. *)
Definition layouts : list (list kind) :=
  [[k_degenerate; k_positive; k_negative]; [k_degenerate; k_negative; k_positive];
   [k_positive; k_negative; k_degenerate]; [k_positive; k_degenerate; k_negative];
   [k_negative; k_positive; k_degenerate]; [k_negative; k_degenerate; k_positive]].

(** [pga_metric = metric<3, 0, 1>]. *)
Definition pga_metric : metric := mk_metric 3 0 1.

(** [pga_algebra = algebra<pga_metric>], in each layout. *)
Definition pga_algebras : list algebra := map (mk_algebra pga_metric) layouts.

(** Number of set bits among the [n] lowest bits of a blade mask. *)
Fixpoint count_bits (n : nat) (a : Z) : nat :=
  match n with
  | O => O
  | S n' => ((if Z.testbit a (Z.of_nat n') then 1 else 0) + count_bits n' a)%nat
  end.

(** Modelled from the spec: "(blade) -> grade", the popcount of the mask. *)
Definition grade (b : Z) : nat := count_bits 8 b.

(** Transpositions needed to bring the concatenation of the basis vectors
    of [a] and of [b] into increasing order: each vector of [b] passes the
    vectors of [a] with a greater index. *)
Fixpoint swaps (n : nat) (a b : Z) : nat :=
  match n with
  | O => O
  | S j => ((if Z.testbit b (Z.of_nat j)
             then count_bits 8 (Z.shiftr a (Z.of_nat j + 1)) else 0)
            + swaps j a b)%nat
  end.

(** Product of the squares of the basis vectors common to both blades. *)
Fixpoint contraction (m : algebra) (n : nat) (c : Z) : Z :=
  match n with
  | O => 1
  | S i => (if Z.testbit c (Z.of_nat i) then basis_square m i else 1)
           * contraction m i c
  end.

(** Modelled from the spec: the blade-product rule of the algebra,
    "(blade_a, blade_b) -> (sign, result_blade)", for the geometric
    product under a diagonal metric. *)
Definition blade_product (m : algebra) (a b : Z) : Z * Z :=
  ((if Nat.even (swaps (dimension (alg_metric m)) a b) then 1 else -1)
   * contraction m (dimension (alg_metric m)) (Z.land a b),
   Z.lxor a b).

(** The sixteen blades of the PGA. *)
Definition pga_blades : list Z := map Z.of_nat (seq 0 16).

(** Both ways of bracketing a product of three blades. *)
Definition blade_product3_l (m : algebra) (a b c : Z) : Z * Z :=
  let '(s, ab) := blade_product m a b in
  let '(s', abc) := blade_product m ab c in (s * s', abc).

Definition blade_product3_r (m : algebra) (a b c : Z) : Z * Z :=
  let '(s, bc) := blade_product m b c in
  let '(s', abc) := blade_product m a bc in (s * s', abc).

Definition pair_eqb (p q : Z * Z) : bool :=
  (fst p =? fst q) && (snd p =? snd q).

(** *** Symbolic multivectors in structured form *)

(** A monomial: coefficient and indeterminates, the latter ordered by id
    with one entry per id. *)
Definition smon : Type := (rat * list ind)%type.

(** A term: a blade together with the monomials summed under it. *)
Definition sterm : Type := (Z * list smon)%type.

Definition smv : Type := list sterm.

(** Reading the flat storage of a multivector. *)
Definition unpack_mon (m : mv) (mo : mon) : smon := (mon_q mo, mon_inds m mo).

Definition unpack_term (m : mv) (t : term) : sterm :=
  (term_element t, map (unpack_mon m) (term_mons m t)).

Definition unpack (m : mv) : smv := map (unpack_term m) (terms m).

(** Modelled from the spec: multiplying monomials "multiplies their
    rational coefficients and concatenates (with multiplicity merge) their
    indeterminate lists - if the same id appears in both operands,
    multiplicities add". *)
Fixpoint ind_insert (v : ind) (l : list ind) : list ind :=
  match l with
  | [] => [v]
  | w :: l' =>
      if ind_id v =? ind_id w
      then mk_ind (ind_id w) (Qred (ind_degree v + ind_degree w)) :: l'
      else if ind_id v <? ind_id w then v :: w :: l'
      else w :: ind_insert v l'
  end.

Definition inds_mul (a b : list ind) : list ind := fold_right ind_insert b a.

Definition smon_mul (a b : smon) : smon :=
  (Qred (fst a * fst b), inds_mul (snd a) (snd b)).

Definition smon_scale (s : Z) (a : smon) : smon :=
  (Qred (inject_Z s * fst a), inds_mul (snd a) []).

(** Two monomials are alike when they have the same indeterminates with
    the same multiplicities. *)
Fixpoint inds_eqb (a b : list ind) : bool :=
  match a, b with
  | [], [] => true
  | v :: a', w :: b' =>
      (ind_id v =? ind_id w) && Qeq_bool (ind_degree v) (ind_degree w)
      && inds_eqb a' b'
  | _, _ => false
  end.

(** Modelled from the spec: canonicalisation step (b), "for each blade sum
    the grouped monomials' coefficients when the monomials are identical in
    their indeterminate sets, otherwise keep them as separate monomials
    under the same blade". *)
Fixpoint poly_add (m : smon) (p : list smon) : list smon :=
  match p with
  | [] => [m]
  | m' :: p' =>
      if inds_eqb (snd m) (snd m')
      then (Qred (fst m + fst m'), snd m') :: p'
      else m' :: poly_add m p'
  end.

(** Modelled from the spec: canonicalisation step (a), "group terms by
    blade". *)
Fixpoint smv_add (b : Z) (m : smon) (s : smv) : smv :=
  match s with
  | [] => [(b, [m])]
  | (b', p) :: s' =>
      if b =? b' then (b', poly_add m p) :: s'
      else (b', p) :: smv_add b m s'
  end.

Definition smv_add_term (t : sterm) (s : smv) : smv :=
  fold_left (fun acc m => smv_add (fst t) m acc) (snd t) s.

(** A dead monomial has coefficient zero. *)
Definition dead (m : smon) : bool := Qeq_bool (fst m) 0.

(** Modelled from the spec: canonicalisation step (c), "drop blades whose
    resulting term list reduces to only dead (zero) monomials"; dead
    monomials themselves are filtered. *)
Definition drop_dead (s : smv) : smv :=
  filter (fun t => negb (match snd t with [] => true | _ => false end))
         (map (fun t => (fst t, filter (fun m => negb (dead m)) (snd t))) s).

(** Modelled from the spec: canonicalisation step (d), "stably partition
    remaining terms by grade ... preserving blade ordering within a
    grade". *)
Definition term_leb (a b : sterm) : bool :=
  (grade (fst a) <=? grade (fst b))%nat.

Fixpoint term_insert (t : sterm) (s : smv) : smv :=
  match s with
  | [] => [t]
  | u :: s' => if term_leb t u then t :: u :: s' else u :: term_insert t s'
  end.

Definition by_grade (s : smv) : smv := fold_right term_insert [] s.

(** A monomial as stored is brought to structured form by merging its
    indeterminates. *)
Definition smon_norm (a : smon) : smon :=
  (Qred (fst a), inds_mul (snd a) []).

(** Modelled from the spec: building a canonical multivector from a raw
    list of terms. *)
Definition canonical (raw : smv) : smv :=
  by_grade
    (drop_dead
       (fold_left (fun acc t => smv_add_term t acc)
                  (map (fun t => (fst t, map smon_norm (snd t))) raw) [])).

(** Modelled from the spec: the sum of two multivectors, "union of blade
    sets; for shared blades, concatenate term lists then re-run
    canonicalization". *)
Definition sum (a b : smv) : smv := canonical (a ++ b).

(** Modelled from the spec: the geometric product, "for every pair of
    terms (one from each operand), consult the algebra's blade-product
    rule to get the resulting blade and a sign/scale factor; multiply
    monomials (propagating the sign into the rational coefficient) ...
    accumulate into the output by blade, then canonicalize". *)
Definition term_product (m : algebra) (ta tb : sterm) : sterm :=
  let '(s, c) := blade_product m (fst ta) (fst tb) in
  (c, flat_map (fun ma => map (fun mb => smon_scale s (smon_mul ma mb)) (snd tb))
               (snd ta)).

Definition product (m : algebra) (a b : smv) : smv :=
  canonical (flat_map (fun ta => map (term_product m ta) b) a).


(** [gal::e<algebra, blade>]: the unit multivector of one blade. *)
Definition unit_blade (b : Z) : smv := [(b, [(one, [])])].

(** The output slots of a canonical multivector: one per surviving blade. *)
Definition slots (s : smv) : list Z := map fst s.

(** *** Numeric evaluation *)

Section Evaluate.
Context {T : Type} {NT : Numeric T}.

Definition t_of_rat (q : rat) : T :=
  t_div (t_of_Z (Qnum q)) (t_of_Z (Zpos (Qden q))).

Fixpoint t_pow (x : T) (n : nat) : T :=
  match n with
  | O => t_one
  | S O => x
  | S n' => t_mul x (t_pow x n')
  end.

(** Multiplicities are evaluated by repeated multiplication. *)
Definition exponent (d : rat) : nat := Z.to_nat (Qnum d / Zpos (Qden d)).

(** Modelled from the spec: a monomial is "coefficient x product of
    indeterminates", each indeterminate read from the live inputs. *)
Definition eval_mon (input : Z -> T) (m : smon) : T :=
  fold_left (fun acc v => t_mul acc (t_pow (input (ind_id v)) (exponent (ind_degree v))))
            (snd m) (t_of_rat (fst m)).

Definition eval_poly (input : Z -> T) (p : list smon) : T :=
  match p with
  | [] => t_zero
  | m :: p' => fold_left (fun acc m' => t_add acc (eval_mon input m')) p'
                         (eval_mon input m)
  end.

(** Modelled from the spec: evaluation of a canonical multivector,
    "per output slot (one per surviving blade, in grade order)" the
    value of the blade's monomials against the inputs. *)
Definition eval (input : Z -> T) (s : smv) : entity T :=
  mk_entity (slots s) (map (fun t => eval_poly input (snd t)) s).

(** Inputs of one entity whose indeterminates start at [base]. *)
Definition inputs_at (base : Z) (data : list T) : Z -> T :=
  fun i => nth (Z.to_nat (u32 (i - base))) data t_zero.

(** Modelled from the spec: the multivector of one entity simplified
    and evaluated against that entity's data. *)
Definition evaluate (m : mv) (base : Z) (data : list T) : entity T :=
  eval (inputs_at base data) (canonical (unpack m)).
End Evaluate.

(** *** Expressions handed to the engine *)

(** Modelled from the spec: the expression tree built by the lambdas
    passed to [compute]: parameters, the pseudoscalar [ps<T>], sums and
    geometric products. *)
Inductive expr : Type :=
| arg (k : nat)
| ps
| plus (a b : expr)
| times (a b : expr).

Fixpoint build (m : algebra) (env : list smv) (x : expr) : smv :=
  match x with
  | arg k => canonical (nth k env [])
  | ps => unit_blade (2 ^ Z.of_nat (dimension (alg_metric m)) - 1)
  | plus a b => sum (build m env a) (build m env b)
  | times a b => product m (build m env a) (build m env b)
  end.

(** An entity handed to [compute]: its static [ie] and [ind_count] and
    its numeric array. *)
Record operand (T : Type) : Type :=
  mk_operand { op_ie : Z -> mv; op_ind_count : nat; op_data : list T }.
Arguments mk_operand {T} _ _ _.
Arguments op_ie {T} _ _.
Arguments op_ind_count {T} _.
Arguments op_data {T} _.

(** Modelled from the spec: the id allocator, "a counter returning the
    next available contiguous id range", starting at 0. *)
Fixpoint allocate {T : Type} (next : Z) (ops : list (operand T)) : list smv :=
  match ops with
  | [] => []
  | o :: ops' =>
      unpack (op_ie o next)
      :: allocate (u32 (next + Z.of_nat (op_ind_count o))) ops'
  end.

(** Modelled from the spec: [compute], the "generic compute driver that
    takes N live entities and a pure operation expression and returns a
    new entity-like numeric array". *)
Definition compute {T : Type} {NT : Numeric T} (a : algebra) (x : expr)
           (ops : list (operand T)) : entity T :=
  eval (inputs_at 0 (concat (map op_data ops)))
       (build a (allocate 0 ops) x).

(** The monomials a multivector sums under blade [b]: those of the first
    term of that blade, none when there is no such term. *)
Fixpoint coefficient_of (s : smv) (b : Z) : list smon :=
  match s with
  | [] => []
  | (b', p) :: s' => if b' =? b then p else coefficient_of s' b
  end.

End Engine.

(** ** Exponential and logarithm ([pga.hpp]) *)

Module PgaMaps.
Import Entity Engine Pga.

(** The run-time math-library calls of [exp] and [log]. *)
Class Transcendental (T : Type) : Type := {
  t_cos : T -> T;
  t_sin : T -> T;
  t_atan2 : T -> T -> T;
  t_abs : T -> T;
  t_ltb : T -> T -> bool;
  t_1em6 : T
}.

Section Maps.
Context {T : Type} {NT : Numeric T} {FT : Floating T} {TT : Transcendental T}.

(** The algebra the engine computes in, [pga_algebra]. *)
Variable alg : algebra.

Definition line_operand (l : line.line T) : operand T :=
  mk_operand line.ie line.ind_count (line.data l).

(** [decltype(l2)]: the entity type of a self-product, blades [e] and
    [e0123]. *)
Definition l2_elements : list Z := [0; 15].

Definition l2_operand (d : list T) : operand T :=
  mk_operand (ie l2_elements) (ind_count l2_elements) d.

Definition scalar_operand (s : scalar T) : operand T :=
  mk_operand scalar_ie scalar_ind_count [value s].

(** [entity::operator[]]. *)
Definition at_ (en : entity T) (i : nat) : T := nth i (data_ en) t_zero.

Fixpoint update (d : list T) (i : nat) (v : T) : list T :=
  match d, i with
  | [], _ => []
  | _ :: d', O => v :: d'
  | a :: d', S i' => a :: update d' i' v
  end.

(** Assignment through [entity::operator[]]. *)
Definition set_at (en : entity T) (i : nat) (v : T) : entity T :=
  mk_entity (elements en) (update (data_ en) i v).

(** The lambda [l * l]. *)
Definition self_product : expr := times (arg 0) (arg 0).

(** A call of [compute] together with the expression it was given. *)
Definition traced (A : Type) : Type := (A * list expr)%type.

Definition compute_traced (x : expr) (ops : list (operand T))
  : traced (entity T) := (compute alg x ops, [x]).

Definition bind {A B : Type} (c : traced A) (k : A -> traced B) : traced B :=
  let '(a, t) := c in
  let '(b, t') := k a in
  (b, t ++ t').

Definition ret {A : Type} (a : A) : traced A := (a, []).

(** [pga::exp]. *)
Definition exp (l : line.line T) : traced (entity T) :=
  bind (compute_traced self_product [line_operand l]) (fun l2 =>
  let s := t_opp (at_ l2 0) in
  let u := t_sqrt s in
  let v := t_div (t_opp (at_ l2 1)) (t_mul (t_of_Z 2) u) in
  let l2' := set_at (set_at l2 0 u) 1 v in
  let inv_norm := [t_div t_one u; t_div (t_opp (at_ l2' 1)) s] in
  let cos_u := t_cos u in
  let sin_u := t_sin u in
  let real := [cos_u; t_mul (t_opp v) sin_u] in
  let ideal := [sin_u; t_mul v cos_u] in
  compute_traced (plus (arg 0) (times (times (arg 1) (arg 2)) (arg 3)))
                 [l2_operand real; l2_operand ideal; l2_operand inv_norm;
                  line_operand l]).

(** [pga::log]. *)
Definition log (m : entity T) : traced (option (line.line T)) :=
  let s1 := at_ m 0 in
  let p1 := at_ m 7 in
  match select_pack m [3; 5; 6; 9; 10; 12] with
  | None => ret None
  | Some a =>
      match line.of_array a with
      | None => ret None
      | Some l =>
          bind (compute_traced self_product [line_operand l]) (fun l2 =>
          let s2 := t_sqrt (t_opp (at_ l2 0)) in
          let p2 := t_div (t_opp (at_ l2 1)) (t_mul (t_of_Z 2) s2) in
          let s1_zero := t_ltb (t_abs s1) t_1em6 in
          let u := mk_scalar (if s1_zero then t_atan2 (t_opp p1) p2
                              else t_atan2 s2 s1) in
          let v := mk_scalar (if s1_zero then t_div (t_opp p1) s2
                              else t_div p2 s1) in
          let norm_inv := [t_opp s2; t_div p2 (t_mul (t_of_Z 2) s2)] in
          bind (compute_traced
                  (times (times (plus (arg 2) (times (arg 3) ps)) (arg 0)) (arg 1))
                  [l2_operand norm_inv; line_operand l;
                   scalar_operand u; scalar_operand v])
               (fun r => ret (line.of_entity r)))
      end
  end.

(** How many of the engine calls of a run were self-products. *)
Definition expr_is_self_product (x : expr) : bool :=
  match x with
  | times (arg a) (arg b) => (a =? b)%nat
  | _ => false
  end.

Definition self_products {A : Type} (c : traced A) : nat :=
  length (filter expr_is_self_product (snd c)).
End Maps.

End PgaMaps.

(** ** Mutable access to an entity ([entity.hpp]) *)

Module Access.
Import Entity.

Section Pointer.
Context {T : Type}.

(** The loop of the non-const [entity::select(uint8_t)]: the address
    [&data_[i]] of the first slot tagged [e] is the slot's index, and
    [Some None] is the null pointer returned after the loop; [None] stands
    for a loop that has not finished. *)
Fixpoint select_ptr_loop (fuel : nat) (en : entity T) (e : Z) (i : Z)
  : option (option nat) :=
  match fuel with
  | O => None
  | S fuel' =>
      if i =? Z.of_nat (length (elements en)) then Some None
      else if nth (Z.to_nat i) (elements en) 0 =? e
           then Some (Some (Z.to_nat i))
           else select_ptr_loop fuel' en e (u8 (i + 1))
  end.

Definition select_ptr (en : entity T) (e : Z) : option (option nat) :=
  select_ptr_loop 257 en e 0.

(** Assignment [*p = v] through a pointer into [data_]. *)
Definition store (en : entity T) (p : nat) (v : T) : entity T :=
  mk_entity (elements en) (PgaMaps.update (data_ en) p v).
End Pointer.

(** An IEEE value that is a zero of either sign or NaN. *)
Definition zero_or_nan (x : spec_float) : bool :=
  match x with
  | S754_zero _ | S754_nan => true
  | _ => false
  end.


(** An IEEE value that is not a number a coordinate can hold: NaN or an
    infinity. *)
Definition non_finite (x : spec_float) : bool :=
  match x with
  | S754_nan | S754_infinity _ => true
  | _ => false
  end.

End Access.

(** [float] literals: an integer, and [m * 2^e]. *)
Definition f32 (n : Z) : spec_float := t_of_Z (Numeric := binary32) n.
Definition f32_scaled (m e : Z) : spec_float := binary_normalize 24 128 m e false.

(** The 256 values of a [uint8_t]. *)
Definition bytes : list Z := map Z.of_nat (seq 0 256).

(** * Properties *)

Import Entity Engine Pga PgaMaps Access.

(** ** Machine arithmetic *)

Lemma u32_offset (id k : Z) :
  0 <= k < 4294967296 -> u32 (u32 (id + k) - id) = k.
Proof.
  intros Hk. unfold u32.
  rewrite Zminus_mod_idemp_l.
  replace (id + k - id) with k by lia.
  apply Z.mod_small; exact Hk.
Qed.

Lemma u32_self (id : Z) : u32 (id - id) = 0.
Proof. unfold u32. now rewrite Z.sub_diag. Qed.

Lemma u32_shift_neq (id a b : Z) :
  0 <= a < 4294967296 -> 0 <= b < 4294967296 -> a <> b ->
  u32 (id + a) <> u32 (id + b).
Proof.
  intros Ha Hb Hab Heq. apply Hab.
  rewrite <- (u32_offset id a Ha), <- (u32_offset id b Hb).
  now rewrite Heq.
Qed.

(** ** [entity::select] *)

Section SelectLoop.
Context {T : Type} {NT : Numeric T}.
Variable en : entity T.
Variable e : Z.

(** Starting at [i], the loop reaches a first match at [i + k]. *)
Lemma select_loop_finds (k : nat) :
  forall (i fuel : nat),
    (i + k < 256)%nat ->
    (i + k < length (elements en))%nat ->
    (forall j, (i <= j < i + k)%nat -> nth j (elements en) 0 <> e) ->
    nth (i + k) (elements en) 0 = e ->
    (k < fuel)%nat ->
    select_loop fuel en e (Z.of_nat i)
    = Some (nth (i + k) (data_ en) t_zero, en).
Proof.
  induction k as [|k IH]; intros i fuel Hlt Hlen Hno Hat Hfuel.
  - destruct fuel as [|fuel]; [lia|]. simpl.
    rewrite Nat.add_0_r in *.
    destruct (Z.eqb_spec (Z.of_nat i) (Z.of_nat (length (elements en)))); [lia|].
    rewrite Nat2Z.id, Hat, Z.eqb_refl. reflexivity.
  - destruct fuel as [|fuel]; [lia|]. simpl.
    destruct (Z.eqb_spec (Z.of_nat i) (Z.of_nat (length (elements en)))); [lia|].
    rewrite Nat2Z.id.
    destruct (Z.eqb_spec (nth i (elements en) 0) e) as [Heq|_].
    + exfalso. apply (Hno i); [lia | exact Heq].
    + replace (u8 (Z.of_nat i + 1)) with (Z.of_nat (S i)).
      * replace (i + S k)%nat with (S i + k)%nat in * by lia.
        apply IH; try lia; try assumption.
        intros j Hj. apply Hno. lia.
      * unfold u8. rewrite Z.mod_small; lia.
Qed.

(** Without a match the loop runs off the end of a short blade list. *)
Lemma select_loop_misses (k : nat) :
  forall (i fuel : nat),
    (length (elements en) < 256)%nat ->
    (i + k = length (elements en))%nat ->
    (forall j, (i <= j < length (elements en))%nat -> nth j (elements en) 0 <> e) ->
    (k < fuel)%nat ->
    select_loop fuel en e (Z.of_nat i) = Some (t_zero, en).
Proof.
  induction k as [|k IH]; intros i fuel Hshort Hlen Hno Hfuel.
  - destruct fuel as [|fuel]; [lia|]. simpl.
    destruct (Z.eqb_spec (Z.of_nat i) (Z.of_nat (length (elements en)))); [reflexivity|lia].
  - destruct fuel as [|fuel]; [lia|]. simpl.
    destruct (Z.eqb_spec (Z.of_nat i) (Z.of_nat (length (elements en)))); [lia|].
    rewrite Nat2Z.id.
    destruct (Z.eqb_spec (nth i (elements en) 0) e) as [Heq|_].
    + exfalso. apply (Hno i); [lia | exact Heq].
    + replace (u8 (Z.of_nat i + 1)) with (Z.of_nat (S i)).
      * apply IH; try lia. intros j Hj. apply Hno. lia.
      * unfold u8. rewrite Z.mod_small; lia.
Qed.
End SelectLoop.

Lemma in_bytes (x : Z) : 0 <= x < 256 -> In x bytes.
Proof.
  intros Hx. unfold bytes. apply in_map_iff.
  exists (Z.to_nat x). split; [lia|]. apply in_seq. lia.
Qed.

(** Distinct blade tags: at most 256 of them. *)
Lemma distinct_tags_length (l : list Z) :
  Forall (fun x => 0 <= x < 256) l -> NoDup l -> (length l <= 256)%nat.
Proof.
  intros Hr Hnd.
  replace 256%nat with (length bytes) by (unfold bytes; now rewrite length_map, length_seq).
  apply NoDup_incl_length; [exact Hnd|].
  intros x Hx. apply in_bytes. rewrite Forall_forall in Hr. now apply Hr.
Qed.

(** A tag that is absent leaves room for at most 255 others. *)
Lemma absent_tag_length (l : list Z) (e : Z) :
  Forall (fun x => 0 <= x < 256) l -> NoDup l -> 0 <= e < 256 -> ~ In e l ->
  (length l < 256)%nat.
Proof.
  intros Hr Hnd He Hni.
  assert (Hle : (length (e :: l) <= 256)%nat).
  { apply distinct_tags_length; constructor; assumption. }
  simpl in Hle. lia.
Qed.

(** In a list without duplicates, a position holding [e] is the first. *)
Lemma NoDup_first_position (l : list Z) (e : Z) (i : nat) :
  NoDup l -> (i < length l)%nat -> nth i l 0 = e ->
  forall j, (j < i)%nat -> nth j l 0 <> e.
Proof.
  intros Hnd Hi Hat j Hj Heq.
  assert (j = i); [|lia].
  apply (proj1 (NoDup_nth l 0) Hnd); [lia | exact Hi | congruence].
Qed.

(** C9. [entity::select(e) const]: the call returns the coefficient
    stored at the first position whose blade tag is [e] - with distinct
    tags the only such position - and the value-initialised [T{}] when
    [e] is not a tag of the entity; the entity it hands back is the one it
    was given.  The loop ends for distinct [uint8_t] tags, and for fewer
    than 256 tags of any kind. *)
Theorem select_returns_tagged_coefficient :
  forall (T : Type) (NT : Numeric T) (en : entity T) (e : Z),
    Forall (fun x => 0 <= x < 256) (elements en) ->
    0 <= e < 256 ->
    NoDup (elements en) \/ (length (elements en) < 256)%nat ->
    (forall i, (i < length (elements en))%nat ->
               nth i (elements en) 0 = e ->
               (forall j, (j < i)%nat -> nth j (elements en) 0 <> e) ->
               select en e = Some (nth i (data_ en) t_zero, en))
    /\ (NoDup (elements en) ->
        forall i, (i < length (elements en))%nat ->
                  nth i (elements en) 0 = e ->
                  select en e = Some (nth i (data_ en) t_zero, en))
    /\ (~ In e (elements en) -> select en e = Some (t_zero, en)).
Proof.
  intros T NT en e Hr He Hshape.
  assert (Hlen : (length (elements en) <= 256)%nat).
  { destruct Hshape as [Hnd|Hlt]; [now apply distinct_tags_length | lia]. }
  assert (Hfound : forall i, (i < length (elements en))%nat ->
             nth i (elements en) 0 = e ->
             (forall j, (j < i)%nat -> nth j (elements en) 0 <> e) ->
             select en e = Some (nth i (data_ en) t_zero, en)).
  { intros i Hi Hat Hfirst. unfold select, select_fuel.
    apply (select_loop_finds en e i 0 257); try lia; try assumption.
    intros j Hj. apply Hfirst. lia. }
  split; [exact Hfound|]. split.
  - intros Hnd i Hi Hat. apply Hfound; try assumption.
    now apply NoDup_first_position.
  - intros Hni.
    assert (Hlt : (length (elements en) < 256)%nat).
    { destruct Hshape as [Hnd|Hlt]; [|exact Hlt].
      now apply (absent_tag_length _ e). }
    unfold select, select_fuel.
    apply (select_loop_misses en e (length (elements en)) 0 257); try lia.
    intros j Hj Heq. apply Hni. rewrite <- Heq. apply nth_In. lia.
Qed.

Lemma select_returns_tagged_coefficient_witness :
  select (mk_entity [0; 3; 5] [1%Qc; Q2Qc 2; Q2Qc 3]) 3
  = Some (Q2Qc 2, mk_entity [0; 3; 5] [1%Qc; Q2Qc 2; Q2Qc 3])
  /\ select (mk_entity [0; 3; 5] [1%Qc; Q2Qc 2; Q2Qc 3]) 6
    = Some (0%Qc, mk_entity [0; 3; 5] [1%Qc; Q2Qc 2; Q2Qc 3]).
Proof.
  assert (Hr : Forall (fun x => 0 <= x < 256) [0; 3; 5]).
  { repeat constructor; lia. }
  assert (Hnd : NoDup [0; 3; 5]).
  { repeat constructor; simpl; intuition lia. }
  split.
  - exact (proj1 (proj2 (select_returns_tagged_coefficient Qc Numeric_Qc
                    (mk_entity [0; 3; 5] [1%Qc; Q2Qc 2; Q2Qc 3]) 3 Hr
                    ltac:(lia) (or_introl Hnd))) Hnd 1%nat
                 ltac:(simpl; lia) eq_refl).
  - exact (proj2 (proj2 (select_returns_tagged_coefficient Qc Numeric_Qc
                    (mk_entity [0; 3; 5] [1%Qc; Q2Qc 2; Q2Qc 3]) 6 Hr
                    ltac:(lia) (or_introl Hnd)))
                 ltac:(simpl; intuition lia)).
Defined.

(** ** [get] *)

(** C8. For every index, [get] on rotor, translator, plane, point, vector
    and line returns [NAN] - the NaN of IEEE arithmetic of any format -
    and on the generic entity and on scalar returns the value-initialised
    [T{}], whatever the object holds. *)
Theorem get_ignores_stored_data :
  forall (i : nat),
    (forall (T : Type) (NT : Numeric T) (FT : Floating T),
        (forall r : rotor.rotor T, rotor.get r i = t_nan) /\
        (forall t : translator.translator T, translator.get t i = t_nan) /\
        (forall p : plane.plane T, plane.get p i = t_nan) /\
        (forall p : point.point T, point.get p i = t_nan) /\
        (forall v : vector.vector T, vector.get v i = t_nan) /\
        (forall l : line.line T, line.get l i = t_nan))
    /\ (forall (prec emax : Z) (r : rotor.rotor spec_float),
           rotor.get (FT := Floating_ieee prec emax) r i = S754_nan)
    /\ (forall (T : Type) (NT : Numeric T),
           (forall en : entity T, get en i = t_zero) /\
           (forall s : scalar T, scalar_get s i = t_zero)).
Proof.
  intros i. split; [|split].
  - intros T NT FT. repeat split.
  - reflexivity.
  - intros T NT. split; reflexivity.
Qed.

(** ** [normalize] *)

Section ZeroLength.
Variables prec emax : Z.

(** The reciprocal length of a zero-length direction is an infinity or a
    NaN, whatever [T{1}] is in the format. *)
Lemma zero_times_reciprocal_of_zero (one' : spec_float) (s : bool) :
  SFmul prec emax (S754_zero s) (SFdiv prec emax one' (S754_zero false)) = S754_nan.
Proof. destruct one' as [s1|s1| |s1 m1 e1]; reflexivity. Qed.

Lemma zero_length_squared (sx sy sz : bool) :
  SFsqrt prec emax
    (SFadd prec emax
       (SFadd prec emax (SFmul prec emax (S754_zero sx) (S754_zero sx))
                        (SFmul prec emax (S754_zero sy) (S754_zero sy)))
       (SFmul prec emax (S754_zero sz) (S754_zero sz)))
  = S754_zero false.
Proof. destruct sx, sy, sz; reflexivity. Qed.
End ZeroLength.

(** C7. [rotor::normalize] and [translator::normalize] multiply [x], [y],
    [z] by [1 / sqrt(x*x + y*y + z*z)] with no test on the length: in IEEE
    arithmetic of any format a zero-length direction (zeros of either
    sign) comes out as three NaNs, for every input the remaining fields
    ([cos_theta], [sin_theta]; [d]) are left as they were, and each
    component is its old value times the reciprocal length. *)
Theorem normalize_zero_length_gives_nan :
  (forall (prec emax : Z) (c s : spec_float) (sx sy sz : bool),
      rotor.normalize (FT := Floating_ieee prec emax)
        (rotor.mk c s (S754_zero sx) (S754_zero sy) (S754_zero sz))
      = rotor.mk c s S754_nan S754_nan S754_nan)
  /\ (forall (prec emax : Z) (d : spec_float) (sx sy sz : bool),
         translator.normalize (FT := Floating_ieee prec emax)
           (translator.mk d (S754_zero sx) (S754_zero sy) (S754_zero sz))
         = translator.mk d S754_nan S754_nan S754_nan)
  /\ (forall (T : Type) (NT : Numeric T) (FT : Floating T) (r : rotor.rotor T),
         rotor.cos_theta (rotor.normalize r) = rotor.cos_theta r /\
         rotor.sin_theta (rotor.normalize r) = rotor.sin_theta r)
  /\ (forall (T : Type) (NT : Numeric T) (FT : Floating T)
             (t : translator.translator T),
         translator.d (translator.normalize t) = translator.d t)
  /\ (forall (T : Type) (NT : Numeric T) (FT : Floating T) (r : rotor.rotor T),
         let l2_inv :=
           t_div t_one
             (t_sqrt (t_add (t_add (t_mul (rotor.x r) (rotor.x r))
                                   (t_mul (rotor.y r) (rotor.y r)))
                            (t_mul (rotor.z r) (rotor.z r)))) in
         rotor.x (rotor.normalize r) = t_mul (rotor.x r) l2_inv /\
         rotor.y (rotor.normalize r) = t_mul (rotor.y r) l2_inv /\
         rotor.z (rotor.normalize r) = t_mul (rotor.z r) l2_inv)
  /\ (forall (T : Type) (NT : Numeric T) (FT : Floating T)
             (t : translator.translator T),
         let l2_inv :=
           t_div t_one
             (t_sqrt (t_add (t_add (t_mul (translator.x t) (translator.x t))
                                   (t_mul (translator.y t) (translator.y t)))
                            (t_mul (translator.z t) (translator.z t)))) in
         translator.x (translator.normalize t) = t_mul (translator.x t) l2_inv /\
         translator.y (translator.normalize t) = t_mul (translator.y t) l2_inv /\
         translator.z (translator.normalize t) = t_mul (translator.z t) l2_inv).
Proof.
  split; [|split; [|split; [|split; [|split; [intros T NT FT r; repeat split
                                            |intros T NT FT t; repeat split]]]]].
  - intros prec emax c s sx sy sz.
    unfold rotor.normalize; cbn -[SFmul SFadd SFsqrt SFdiv binary_normalize].
    rewrite zero_length_squared, !zero_times_reciprocal_of_zero. reflexivity.
  - intros prec emax d sx sy sz.
    unfold translator.normalize; cbn -[SFmul SFadd SFsqrt SFdiv binary_normalize].
    rewrite zero_length_squared, !zero_times_reciprocal_of_zero. reflexivity.
  - intros T NT FT r. split; reflexivity.
  - intros T NT FT t. reflexivity.
Qed.

(** ** The indeterminate expressions [ie] *)

Lemma flat_map_singletons {A B : Type} (f : A -> list B) (g : A -> B) (l : list A) :
  (forall a, In a l -> f a = [g a]) -> flat_map f l = map g l.
Proof.
  induction l as [|a l IH]; intros Hf; [reflexivity|].
  simpl. rewrite (Hf a (or_introl eq_refl)), IH; [reflexivity|].
  intros b Hb. apply Hf. now right.
Qed.

(** The [k]-th monomial of [construct_ie] ranges over the [k]-th
    indeterminate alone. *)
Lemma construct_ie_mon_inds (id : Z) (n k : nat) (E : list Z) :
  (k < n)%nat ->
  mon_inds (construct_ie id (seq 0 n) E) (mk_mon one one 1 k)
  = [mk_ind (u32 (id + Z.of_nat k)) one].
Proof.
  intros Hk. unfold mon_inds, construct_ie; simpl inds; simpl mon_count;
    simpl mon_ind_offset.
  rewrite skipn_map, skipn_seq.
  replace (n - k)%nat with (S (n - k - 1)) by lia.
  reflexivity.
Qed.

(** The ids [construct_ie] reads, in order. *)
Lemma construct_ie_referenced (id : Z) (E : list Z) :
  referenced_ids (ie E id) = id_range id (ind_count E).
Proof.
  unfold ie, ind_count, referenced_ids, id_range.
  change (mons (construct_ie id (seq 0 (length E)) E))
    with (map (fun n => mk_mon one one 1 n) (seq 0 (length E))).
  rewrite flat_map_concat_map, map_map, <- flat_map_concat_map.
  apply flat_map_singletons.
  intros k Hk. apply in_seq in Hk.
  rewrite construct_ie_mon_inds by lia. reflexivity.
Qed.

(** [entity::ie] reads exactly the contiguous id range of its blades, one
    id per monomial, each range inside the indeterminate list. *)
Lemma construct_ie_ids (id : Z) (E : list Z) :
  referenced_ids (ie E id) = id_range id (ind_count E)
  /\ mon_ranges_ok (ie E id) = true.
Proof.
  split; [apply construct_ie_referenced|].
  unfold ie, mon_ranges_ok, construct_ie; simpl.
  apply forallb_forall. intros mo Hmo.
  apply in_map_iff in Hmo. destruct Hmo as [k [<- Hk]].
  apply in_seq in Hk. simpl.
  rewrite length_map, length_seq. apply Nat.leb_le. lia.
Qed.

(** C2, the entities whose [ie] leaves the id range: [rotor::ie] never
    reads [id + 2] (the field [x]), [translator::ie] reads neither
    [id + 2] nor [id + 3] ([y], [z]), and the one monomial of
    [scalar::ie] has count 0 and reads nothing, although [id] lies in the
    range of one input. *)
Theorem ie_ids_outside_contiguous_range :
  forall id : Z,
    (In (u32 (id + 2)) (id_range id rotor.ind_count) /\
     ~ In (u32 (id + 2)) (referenced_ids (rotor.ie id)))
    /\ (In (u32 (id + 3)) (id_range id translator.ind_count) /\
        ~ In (u32 (id + 2)) (referenced_ids (translator.ie id)) /\
        ~ In (u32 (id + 3)) (referenced_ids (translator.ie id)))
    /\ (id_range id scalar_ind_count = [u32 (id + 0)] /\
        referenced_ids (scalar_ie id) = []).
Proof.
  intros id.
  assert (Hself : forall k, 0 < k < 4294967296 -> id <> u32 (id + k)).
  { intros k Hk Heq. unfold u32 in Heq.
    assert (Hr : 0 <= id < 4294967296).
    { rewrite Heq. apply Z.mod_pos_bound. lia. }
    assert (Hd : (id + k) mod 4294967296 = id) by congruence.
    destruct (Z_lt_ge_dec (id + k) 4294967296).
    - rewrite Z.mod_small in Hd by lia. lia.
    - replace (id + k) with ((id + k - 4294967296) + 1 * 4294967296) in Hd by lia.
      rewrite Z_mod_plus_full, Z.mod_small in Hd by lia. lia. }
  assert (Hne : forall a b, 0 <= a < 4294967296 -> 0 <= b < 4294967296 ->
                            a <> b -> u32 (id + a) = u32 (id + b) -> False).
  { intros a b Ha Hb Hab. now apply u32_shift_neq. }
  repeat split.
  - simpl. tauto.
  - simpl. intros [Hx|[Hx|[Hx|[Hx|[Hx|[Hx|[]]]]]]];
      first [ apply (Hself 2); [lia | exact Hx]
            | eapply (Hne _ 2 _ _ _ Hx) ].
  - simpl. tauto.
  - simpl. intros [Hx|[Hx|[Hx|[Hx|[Hx|[Hx|[]]]]]]];
      first [ apply (Hself 2); [lia | exact Hx]
            | eapply (Hne _ 2 _ _ _ Hx) ].
  - simpl. intros [Hx|[Hx|[Hx|[Hx|[Hx|[Hx|[]]]]]]];
      first [ apply (Hself 3); [lia | exact Hx]
            | eapply (Hne _ 3 _ _ _ Hx) ].
Unshelve. all: lia.
Qed.

(** Set equality of id lists. *)
Lemma same_ids_intro (l r : list Z) :
  incl l r -> incl r l -> forall x, In x l <-> In x r.
Proof. intros Hlr Hrl x. split; [apply Hlr | apply Hrl]. Qed.

(** [point::ie], [vector::ie] and [line::ie] read exactly the ids of
    their own contiguous range. *)
Lemma pga_ie_ids (id : Z) :
  0 <= id < 4294967296 ->
  (forall x, In x (referenced_ids (point.ie id)) <-> In x (id_range id point.ind_count))
  /\ (forall x, In x (referenced_ids (vector.ie id)) <-> In x (id_range id vector.ind_count))
  /\ (forall x, In x (referenced_ids (line.ie id)) <-> In x (id_range id line.ind_count))
  /\ referenced_ids (plane.ie id) = id_range id plane.ind_count
  /\ mon_ranges_ok (point.ie id) = true
  /\ mon_ranges_ok (vector.ie id) = true
  /\ mon_ranges_ok (line.ie id) = true
  /\ mon_ranges_ok (plane.ie id) = true.
Proof.
  intros Hid.
  assert (H0 : u32 (id + 0) = id).
  { unfold u32. rewrite Z.add_0_r. now apply Z.mod_small. }
  repeat split; try reflexivity;
    try (apply (construct_ie_referenced id [1; 2; 4; 8]));
    unfold id_range; simpl; rewrite ?H0; intros Hx; intuition.
Qed.

Lemma pga_ie_ids_witness :
  In 8 (referenced_ids (point.ie 7)) <-> In 8 (id_range 7 point.ind_count).
Proof. exact (proj1 (pga_ie_ids 7 ltac:(lia)) 8). Defined.

Lemma size_invariant_spec (m : mv) :
  size_invariant m = true <-> counters_match m /\ counters_fit m.
Proof.
  unfold size_invariant, counters_match, counters_fit.
  rewrite !andb_true_iff, !Nat.eqb_eq, !Nat.leb_le. tauto.
Qed.

(** The counters of [construct_ie] equal the lengths of its three arrays
    and the capacities of its type. *)
Lemma construct_ie_size (id : Z) (E : list Z) :
  size_invariant (ie E id) = true
  /\ counters_match (ie E id)
  /\ size (ie E id) = mv_cap (ie E id)
  /\ size (ie E id) = mk_mv_size (length E) (length E) (length E).
Proof.
  assert (Hinv : size_invariant (ie E id) = true).
  { unfold size_invariant, ie, construct_ie; simpl.
    rewrite !length_map, length_combine, length_seq, Nat.min_id.
    now rewrite Nat.eqb_refl, Nat.leb_refl. }
  split; [exact Hinv|]. split; [|split; reflexivity].
  apply (proj1 (proj1 (size_invariant_spec _) Hinv)).
Qed.

(** The entities whose counters are sound. *)
Lemma pga_ie_sizes (id : Z) :
  size_invariant (scalar_ie id) = true
  /\ size_invariant (rotor.ie id) = true
  /\ size_invariant (translator.ie id) = true
  /\ size_invariant (plane.ie id) = true
  /\ size_invariant (point.ie id) = true
  /\ size_invariant (line.ie id) = true.
Proof. repeat split. Qed.

(** C5, the entity that breaks the invariant: [vector::ie] announces four
    monomials and four terms in its [mv_size] while its type
    [mv<algebra_t, 3, 3, 3>] has room for three of each and three are
    stored. *)
Theorem vector_ie_counters_overrun :
  forall id : Z,
    size (vector.ie id) = mk_mv_size 3 4 4
    /\ mv_cap (vector.ie id) = mk_mv_size 3 3 3
    /\ length (mons (vector.ie id)) = 3%nat
    /\ length (terms (vector.ie id)) = 3%nat
    /\ ~ counters_match (vector.ie id)
    /\ ~ counters_fit (vector.ie id)
    /\ size_invariant (vector.ie id) = false.
Proof.
  intros id. repeat split.
  - unfold counters_match; simpl. lia.
  - unfold counters_fit; simpl. lia.
Qed.

(** ** [line(entity)] *)

(** C10, evaluated: [line(entity)] reads [e2] (0b100) where [line::ie]
    emits [e12] (0b110), and it stores the coefficients in the order of
    the blades, while the terms of [line::ie] read the fields in the order
    mx, my, dz, mz, dy, dx: the line (dx, dy, dz, mx, my, mz) =
    (1, 2, 3, 4, 5, 6), evaluated through [line::ie] and converted back,
    comes out as (4, 5, 0, 6, 2, 1). *)
Theorem line_of_entity_reads_e2 :
  line.selected = [e01; e02; e2; e03; e13; e23]
  /\ line.ie_elements = [e01; e02; e12; e03; e13; e23]
  /\ line.selected <> line.ie_elements
  /\ map (fun t => flat_map (fun mo => map ind_id (mon_inds (line.ie 0) mo))
                           (term_mons (line.ie 0) t))
         (terms (line.ie 0))
     = [[3]; [4]; [2]; [5]; [1]; [0]]
  /\ line.of_entity (NT := binary32)
       (evaluate (NT := binary32) (line.ie 0) 0
          (line.data (line.mk (f32 1) (f32 2) (f32 3) (f32 4) (f32 5) (f32 6))))
     = Some (line.mk (f32 4) (f32 5) (S754_zero false) (f32 6) (f32 2) (f32 1)).
Proof.
  split; [reflexivity|]. split; [reflexivity|]. split; [discriminate|].
  split; [reflexivity|].
  vm_compute. reflexivity.
Qed.

(** ** Round trip of a point *)

Lemma point_ie_canonical (a b c : Z) :
  canonical
    (unpack (mk_mv (mk_mv_size 3 4 4) (mk_mv_size 3 4 4)
               [mk_ind a one; mk_ind b one; mk_ind c one]
               [mk_mon minus_one one 1 0; mk_mon one one 1 1;
                mk_mon minus_one one 1 2; mk_mon one zero 0 0]
               [mk_term 1 0 7; mk_term 1 1 11; mk_term 1 2 13; mk_term 1 3 14]))
  = [(7, [(minus_one, [mk_ind a one])]); (11, [(one, [mk_ind b one])]);
     (13, [(minus_one, [mk_ind c one])]); (14, [(one, [])])].
Proof. vm_compute. reflexivity. Qed.

Lemma select_pack_point {T : Type} {NT : Numeric T} (d0 d1 d2 d3 : T) :
  select_pack (mk_entity [7; 11; 13; 14] [d0; d1; d2; d3]) [7; 11; 13; 14]
  = Some [d0; d1; d2; d3].
Proof. reflexivity. Qed.

Lemma inputs_at_offset {T : Type} {NT : Numeric T} (id k : Z) (data : list T) :
  0 <= k < 4294967296 ->
  inputs_at id data (u32 (id + k)) = nth (Z.to_nat k) data t_zero.
Proof. intros Hk. unfold inputs_at. now rewrite u32_offset. Qed.

Lemma inputs_at_base {T : Type} {NT : Numeric T} (id : Z) (data : list T) :
  inputs_at id data id = nth 0 data t_zero.
Proof. unfold inputs_at. now rewrite u32_self. Qed.

Section ExactEvaluation.
Variable input : Z -> Qc.

Lemma Qc_of_rat_one : t_of_rat (T := Qc) one = 1%Qc.
Proof. apply Qc_is_canon. reflexivity. Qed.

Lemma Qc_of_rat_minus_one : t_of_rat (T := Qc) minus_one = Qcopp 1%Qc.
Proof. apply Qc_is_canon. reflexivity. Qed.

Lemma Qc_one_neq_zero : 1%Qc <> 0%Qc.
Proof. intros Hc. apply (f_equal this) in Hc. discriminate Hc. Qed.

Lemma eval_plus_one (a : Z) :
  eval_poly input [(one, [mk_ind a one])] = input a.
Proof.
  unfold eval_poly, eval_mon. cbn [fold_left snd fst ind_id ind_degree].
  rewrite Qc_of_rat_one. change (exponent one) with 1%nat. cbn [t_pow].
  apply Qcmult_1_l.
Qed.

Lemma eval_minus_one (a : Z) :
  eval_poly input [(minus_one, [mk_ind a one])] = Qcopp (input a).
Proof.
  unfold eval_poly, eval_mon. cbn [fold_left snd fst ind_id ind_degree].
  rewrite Qc_of_rat_minus_one. change (exponent one) with 1%nat. cbn [t_pow].
  cbn [t_mul Numeric_Qc]. ring.
Qed.

Lemma eval_unit : eval_poly input [(one, [])] = 1%Qc.
Proof.
  unfold eval_poly, eval_mon. cbn [fold_left snd fst]. apply Qc_of_rat_one.
Qed.
End ExactEvaluation.

(** C1. A point built from (x, y, z), turned into its multivector by
    [point::ie], evaluated against the point's own data and converted
    back by [point(entity)] is the point (x, y, z) again: exactly so in
    exact arithmetic, for every id and every x, y, z; and exactly so in
    [float] arithmetic for (1, 2, 3), (0, 0, 0) and (-1.5, 2.5, 100). *)
Theorem point_round_trip :
  (forall (id : Z) (x y z : Qc),
      point.of_entity (evaluate (point.ie id) id (point.data (point.mk x y z)))
      = Some (point.mk x y z))
  /\ Forall (fun p : point.point spec_float =>
               point.of_entity (NT := binary32)
                 (evaluate (NT := binary32) (point.ie 0) 0 (point.data p))
               = Some p)
            [point.mk (f32 1) (f32 2) (f32 3);
             point.mk (f32 0) (f32 0) (f32 0);
             point.mk (f32_scaled (-3) (-1)) (f32_scaled 5 (-1)) (f32 100)].
Proof.
  split.
  - intros id x y z. unfold evaluate, point.ie. rewrite point_ie_canonical.
    unfold eval. cbn [slots map fst snd].
    rewrite !eval_plus_one, !eval_minus_one, eval_unit.
    unfold point.of_entity, point.selected. rewrite select_pack_point.
    rewrite !inputs_at_offset, inputs_at_base by lia.
    unfold point.data. cbn [point.x point.y point.z].
    change (Z.to_nat 1) with 1%nat. change (Z.to_nat 2) with 2%nat.
    cbn [nth t_mul t_opp t_div t_one Numeric_Qc].
    f_equal. f_equal; field; exact Qc_one_neq_zero.
  - repeat constructor; vm_compute; reflexivity.
Qed.

(** ** The product table of the PGA *)

(** The basis vector [e_i]. *)
Lemma basis_vectors : map (fun i => 2 ^ Z.of_nat i) [0; 1; 2; 3]%nat = [e0; e1; e2; e3].
Proof. reflexivity. Qed.

(** A property of every layout of [pga_algebra], checked layout by
    layout. *)
Ltac each_layout :=
  unfold pga_algebras, layouts; cbn [map];
  repeat (apply Forall_cons; [vm_compute; repeat split; try discriminate|]);
  apply Forall_nil.

(** The signature leaves two algebras: the degenerate vector is the first
    or the last of the four. *)
Lemma pga_squares :
  Forall (fun a => squares a = [0; 1; 1; 1] \/ squares a = [1; 1; 1; 0])
         pga_algebras.
Proof.
  unfold pga_algebras, layouts; cbn [map].
  repeat (apply Forall_cons; [vm_compute; tauto|]). apply Forall_nil.
Qed.

(** The modelled blade product of the PGA is associative and has the
    scalar blade as its unit, in every layout. *)
Lemma pga_blade_product_associative :
  Forall (fun alg =>
    forallb (fun a => forallb (fun b => forallb (fun c =>
       pair_eqb (blade_product3_l alg a b c)
                (blade_product3_r alg a b c)) pga_blades) pga_blades)
            pga_blades = true
    /\ forallb (fun a => pair_eqb (blade_product alg e a) (1, a)
                         && pair_eqb (blade_product alg a e) (1, a))
               pga_blades = true) pga_algebras.
Proof. each_layout. Qed.



(** ** The self-product of a line *)

Lemma eval_elements {T : Type} {NT : Numeric T} (input : Z -> T) (s : smv) :
  elements (eval input s) = slots s /\ length (data_ (eval input s)) = length (slots s).
Proof. unfold eval, slots; simpl. now rewrite !length_map. Qed.

(** The canonical multivector of [l * l]: a scalar and a pseudoscalar
    part, in every layout. *)
Lemma line_self_product_slots :
  Forall (fun a => slots (build a [unpack (line.ie 0)] self_product) = [e; e1234])
         pga_algebras.
Proof. each_layout. Qed.

(** Reading and writing the two slots of a self-product. *)
Lemma two_slot_entity {T : Type} {NT : Numeric T} (en : entity T) :
  elements en = [e; e1234] -> length (data_ en) = 2%nat ->
  forall u v : T,
    select en e = Some (at_ en 0, en)
    /\ select en e1234 = Some (at_ en 1, en)
    /\ at_ (set_at (set_at en 0 u) 1 v) 1 = v.
Proof.
  intros He Hd u v. destruct en as [els dat]. cbn [elements data_] in He, Hd.
  subst els. destruct dat as [|x [|y [|z dat]]]; try discriminate Hd.
  repeat split.
Qed.

(** C6. For every line [l] the canonical multivector of [l * l] has two
    output slots, the scalar and the pseudoscalar, so the entity [l2]
    computed for [l * l] has size 2, its slot 0 holding the coefficient of
    the scalar and its slot 1 that of the pseudoscalar.  [exp] computes
    this self-product once and builds its result from the two slots:
    [s = -l2[0]], [u = sqrt(s)], [v = -l2[1] / (2u)] enter the operands of
    its second and last engine call.  [log] does the same for the line made
    of the six bivector slots of the motor, with [s2 = sqrt(-l2[0])] and
    [p2 = -l2[1] / (2 s2)].  This holds in every layout of the
    signature. *)
Theorem line_self_product_has_two_slots :
  forall (T : Type) (NT : Numeric T) (FT : Floating T) (TT : Transcendental T),
    (forall l : line.line T,
        Forall (fun a =>
          let l2 := compute a self_product [line_operand l] in
          let s := t_opp (at_ l2 0) in
          let u := t_sqrt s in
          let v := t_div (t_opp (at_ l2 1)) (t_mul (t_of_Z 2) u) in
          slots (build a (allocate 0 [line_operand l]) self_product) = [e; e1234]
          /\ elements l2 = [e; e1234]
          /\ entity_size (elements l2) = 2%nat
          /\ length (data_ l2) = 2%nat
          /\ select l2 e = Some (at_ l2 0, l2)
          /\ select l2 e1234 = Some (at_ l2 1, l2)
          /\ exp a l
             = (compute a (plus (arg 0) (times (times (arg 1) (arg 2)) (arg 3)))
                  [l2_operand [t_cos u; t_mul (t_opp v) (t_sin u)];
                   l2_operand [t_sin u; t_mul v (t_cos u)];
                   l2_operand [t_div t_one u; t_div (t_opp v) s];
                   line_operand l],
                [self_product;
                 plus (arg 0) (times (times (arg 1) (arg 2)) (arg 3))])
          /\ self_products (exp a l) = 1%nat) pga_algebras)
    /\ (forall d : list T,
          Forall (fun a =>
            let l := line.mk (nth 1 d t_zero) (nth 2 d t_zero) (nth 3 d t_zero)
                             (nth 4 d t_zero) (nth 5 d t_zero) (nth 6 d t_zero) in
            let l2 := compute a self_product [line_operand l] in
            let s1 := nth 0 d t_zero in
            let p1 := nth 7 d t_zero in
            let s2 := t_sqrt (t_opp (at_ l2 0)) in
            let p2 := t_div (t_opp (at_ l2 1)) (t_mul (t_of_Z 2) s2) in
            let u := if t_ltb (t_abs s1) t_1em6
                     then t_atan2 (t_opp p1) p2 else t_atan2 s2 s1 in
            let v := if t_ltb (t_abs s1) t_1em6
                     then t_div (t_opp p1) s2 else t_div p2 s1 in
            elements l2 = [e; e1234]
            /\ log a (mk_entity motor_elements d)
               = (line.of_entity
                    (compute a
                       (times (times (plus (arg 2) (times (arg 3) ps)) (arg 0))
                              (arg 1))
                       [l2_operand [t_opp s2; t_div p2 (t_mul (t_of_Z 2) s2)];
                        line_operand l;
                        scalar_operand (mk_scalar u);
                        scalar_operand (mk_scalar v)]),
                  [self_product;
                   times (times (plus (arg 2) (times (arg 3) ps)) (arg 0))
                         (arg 1)])
            /\ self_products (log a (mk_entity motor_elements d)) = 1%nat)
          pga_algebras).
Proof.
  intros T NT FT TT.
  assert (Hl2 : forall (l : line.line T) (a : algebra), In a pga_algebras ->
            elements (compute a self_product [line_operand l]) = [e; e1234]
            /\ length (data_ (compute a self_product [line_operand l])) = 2%nat).
  { intros l a Ha.
    assert (Hs := proj1 (Forall_forall _ _) line_self_product_slots a Ha).
    cbv beta in Hs. unfold compute.
    rewrite (proj1 (eval_elements _ _)), (proj2 (eval_elements _ _)).
    change (allocate 0 [line_operand l]) with [unpack (line.ie 0)].
    now rewrite Hs. }
  split.
  - intros l. apply Forall_forall. intros a Ha.
    destruct (Hl2 l a Ha) as [He Hd].
    assert (Hs := proj1 (Forall_forall _ _) line_self_product_slots a Ha).
    cbv beta in Hs. cbv zeta.
    set (l2 := compute a self_product [line_operand l]) in *.
    destruct (two_slot_entity l2 He Hd
                (t_sqrt (t_opp (at_ l2 0)))
                (t_div (t_opp (at_ l2 1))
                       (t_mul (t_of_Z 2) (t_sqrt (t_opp (at_ l2 0))))))
      as [Hsel0 [Hsel1 Hupd]].
    split; [exact Hs|]. split; [exact He|].
    split; [now rewrite He|]. split; [exact Hd|].
    split; [exact Hsel0|]. split; [exact Hsel1|].
    assert (Hexp : exp a l
       = (compute a (plus (arg 0) (times (times (arg 1) (arg 2)) (arg 3)))
            [l2_operand [t_cos (t_sqrt (t_opp (at_ l2 0)));
                         t_mul (t_opp (t_div (t_opp (at_ l2 1))
                                  (t_mul (t_of_Z 2) (t_sqrt (t_opp (at_ l2 0))))))
                               (t_sin (t_sqrt (t_opp (at_ l2 0))))];
             l2_operand [t_sin (t_sqrt (t_opp (at_ l2 0)));
                         t_mul (t_div (t_opp (at_ l2 1))
                                  (t_mul (t_of_Z 2) (t_sqrt (t_opp (at_ l2 0)))))
                               (t_cos (t_sqrt (t_opp (at_ l2 0))))];
             l2_operand [t_div t_one (t_sqrt (t_opp (at_ l2 0)));
                         t_div (t_opp (t_div (t_opp (at_ l2 1))
                                  (t_mul (t_of_Z 2) (t_sqrt (t_opp (at_ l2 0))))))
                               (t_opp (at_ l2 0))];
             line_operand l],
          [self_product;
           plus (arg 0) (times (times (arg 1) (arg 2)) (arg 3))])).
    { unfold exp, bind, compute_traced. fold l2. cbv zeta.
      rewrite Hupd. reflexivity. }
    split; [exact Hexp|]. rewrite Hexp. reflexivity.
  - intros d. apply Forall_forall. intros a Ha. cbv zeta.
    destruct (Hl2 (line.mk (nth 1 d t_zero) (nth 2 d t_zero) (nth 3 d t_zero)
                           (nth 4 d t_zero) (nth 5 d t_zero) (nth 6 d t_zero))
                  a Ha) as [He _].
    split; [exact He|].
    split; reflexivity.
Qed.

(** * Further properties *)

Import Access.

(** ** The two overloads of [select] *)

(** The const overload returns what the pointer of the non-const overload
    points to: the slot's content, or [T{}] for the null pointer; and the
    one finishes exactly when the other does. *)
Lemma select_loop_reads_pointer {T : Type} {NT : Numeric T}
      (fuel : nat) (en : entity T) (e i : Z) :
  select_loop fuel en e i
  = match select_ptr_loop fuel en e i with
    | None => None
    | Some None => Some (t_zero, en)
    | Some (Some k) => Some (nth k (data_ en) t_zero, en)
    end.
Proof.
  revert i. induction fuel as [|fuel IH]; intros i; simpl; [reflexivity|].
  destruct (i =? Z.of_nat (length (elements en))); [reflexivity|].
  destruct (nth (Z.to_nat i) (elements en) 0 =? e); [reflexivity|].
  apply IH.
Qed.

Theorem select_reads_pointer :
  forall (T : Type) (NT : Numeric T) (en : entity T) (e : Z),
    select en e
    = match select_ptr en e with
      | None => None
      | Some None => Some (t_zero, en)
      | Some (Some k) => Some (nth k (data_ en) t_zero, en)
      end.
Proof.
  intros T NT en e. unfold select, select_fuel, select_ptr.
  exact (select_loop_reads_pointer 257 en e 0).
Qed.

(** A pointer handed out by the loop points at a slot tagged [e]. *)
Lemma select_ptr_loop_sound {T : Type} (fuel : nat) (en : entity T) (e : Z) :
  forall (i : Z) (k : nat),
    0 <= i <= Z.of_nat (length (elements en)) ->
    select_ptr_loop fuel en e i = Some (Some k) ->
    (k < length (elements en))%nat /\ nth k (elements en) 0 = e.
Proof.
  induction fuel as [|fuel IH]; intros i k Hi Hp; simpl in Hp; [discriminate|].
  destruct (Z.eqb_spec i (Z.of_nat (length (elements en)))); [discriminate|].
  destruct (Z.eqb_spec (nth (Z.to_nat i) (elements en) 0) e) as [Heq|_].
  - injection Hp as <-. split; [lia | exact Heq].
  - apply (IH (u8 (i + 1))); [|exact Hp].
    unfold u8. destruct (Z_lt_ge_dec (i + 1) 256).
    + rewrite Z.mod_small; lia.
    + assert (Hm := Z.mod_pos_bound (i + 1) 256 ltac:(lia)). lia.
Qed.

(** The pointer depends on the blade tags only. *)
Lemma select_ptr_loop_store {T : Type} (fuel : nat) (en : entity T)
      (e i : Z) (p : nat) (v : T) :
  select_ptr_loop fuel (store en p v) e i = select_ptr_loop fuel en e i.
Proof.
  revert i. induction fuel as [|fuel IH]; intros i; simpl; [reflexivity|].
  now rewrite IH.
Qed.

Lemma nth_update_same {T : Type} (d : list T) (k : nat) (v t0 : T) :
  (k < length d)%nat -> nth k (PgaMaps.update d k v) t0 = v.
Proof.
  revert k. induction d as [|a d IH]; intros k Hk; simpl in Hk; [lia|].
  destruct k as [|k]; simpl; [reflexivity|]. apply IH. lia.
Qed.

Lemma nth_update_other {T : Type} (d : list T) (k j : nat) (v t0 : T) :
  j <> k -> nth j (PgaMaps.update d k v) t0 = nth j d t0.
Proof.
  revert k j. induction d as [|a d IH]; intros k j Hjk.
  - destruct k; reflexivity.
  - destruct k as [|k], j as [|j]; simpl; try reflexivity; try lia.
    apply IH. lia.
Qed.

(** Writing through the pointer of the non-const [select(e)] and reading
    [e] back with the const overload gives the value written; the
    coefficient read for any other tag is what it was before. *)
Theorem select_write_then_read :
  forall (T : Type) (NT : Numeric T) (en : entity T) (e : Z) (k : nat) (v : T),
    length (data_ en) = length (elements en) ->
    select_ptr en e = Some (Some k) ->
    select (store en k v) e = Some (v, store en k v)
    /\ forall e', e' <> e ->
         option_map fst (select (store en k v) e') = option_map fst (select en e').
Proof.
  intros T NT en e k v Hlen Hp.
  destruct (select_ptr_loop_sound 257 en e 0 k ltac:(lia) Hp) as [Hk Hat].
  split.
  - unfold select, select_fuel. rewrite select_loop_reads_pointer.
    rewrite select_ptr_loop_store. fold (select_ptr en e). rewrite Hp.
    simpl data_. rewrite nth_update_same by lia. reflexivity.
  - intros e' Hne.
    unfold select, select_fuel. rewrite !select_loop_reads_pointer.
    rewrite select_ptr_loop_store.
    destruct (select_ptr_loop 257 en e' 0) as [[k'|]|] eqn:Hp'; try reflexivity.
    destruct (select_ptr_loop_sound 257 en e' 0 k' ltac:(lia) Hp') as [_ Hat'].
    simpl. f_equal. apply nth_update_other. congruence.
Qed.

Lemma select_write_then_read_witness :
  select (store (mk_entity [0; 3; 5] [1%Qc; Q2Qc 2; Q2Qc 3]) 1 (Q2Qc 7)) 3
  = Some (Q2Qc 7, store (mk_entity [0; 3; 5] [1%Qc; Q2Qc 2; Q2Qc 3]) 1 (Q2Qc 7)).
Proof.
  exact (proj1 (select_write_then_read Qc Numeric_Qc
                  (mk_entity [0; 3; 5] [1%Qc; Q2Qc 2; Q2Qc 3]) 3 1%nat (Q2Qc 7)
                  eq_refl eq_refl)).
Defined.

(** ** [select<S...>] *)

(** A tag that occurs has a first position. *)
Lemma first_position (l : list Z) (e : Z) :
  In e l ->
  exists i, (i < length l)%nat /\ nth i l 0 = e
            /\ forall j, (j < i)%nat -> nth j l 0 <> e.
Proof.
  induction l as [|a l IH]; intros Hin; [destruct Hin|].
  destruct (Z.eq_dec a e) as [Hae|Hae].
  - exists 0%nat. simpl. repeat split; [lia | exact Hae | intros j Hj; lia].
  - destruct Hin as [Hin|Hin]; [contradiction|].
    destruct (IH Hin) as [i [Hi [Hat Hfirst]]].
    exists (S i). simpl. repeat split; [lia | exact Hat |].
    intros [|j] Hj; [exact Hae | apply Hfirst; lia].
Qed.

(** For distinct tags, or fewer than 256 of them, the loop of [select]
    ends: with the coefficient of the first slot tagged [e], or with
    [T{}] when there is none. *)
Lemma select_defined {T : Type} {NT : Numeric T} (en : entity T) (e : Z) :
  Forall (fun x => 0 <= x < 256) (elements en) ->
  0 <= e < 256 ->
  NoDup (elements en) \/ (length (elements en) < 256)%nat ->
  exists v, select en e = Some (v, en)
            /\ (~ In e (elements en) -> v = t_zero)
            /\ (In e (elements en) ->
                exists i, (i < length (elements en))%nat
                          /\ nth i (elements en) 0 = e
                          /\ v = nth i (data_ en) t_zero).
Proof.
  intros Hr He Hshape.
  destruct (in_dec Z.eq_dec e (elements en)) as [Hin|Hni].
  - destruct (first_position _ _ Hin) as [i [Hi [Hat Hfirst]]].
    assert (Hlen : (length (elements en) <= 256)%nat).
    { destruct Hshape as [Hnd|Hlt]; [now apply distinct_tags_length | lia]. }
    exists (nth i (data_ en) t_zero). split; [|split].
    + unfold select, select_fuel.
      apply (select_loop_finds en e i 0 257); try lia; try assumption.
      intros j Hj. apply Hfirst. lia.
    + intros Hni. contradiction.
    + intros _. exists i. repeat split; assumption.
  - assert (Hlt : (length (elements en) < 256)%nat).
    { destruct Hshape as [Hnd|Hlt]; [|exact Hlt].
      now apply (absent_tag_length _ e). }
    exists t_zero. split; [|split].
    + unfold select, select_fuel.
      apply (select_loop_misses en e (length (elements en)) 0 257); try lia.
      intros j Hj Heq. apply Hni. rewrite <- Heq. apply nth_In. lia.
    + reflexivity.
    + intros Hin. contradiction.
Qed.

(** [select<S...>()] on an entity with distinct tags (or fewer than 256
    tags) returns an array of [sizeof...(S)] coefficients, the k-th one
    being what [select] returns for the k-th requested blade; blades the
    entity does not have read as [T{}]. *)
Theorem select_pack_gathers :
  forall (T : Type) (NT : Numeric T) (en : entity T) (S : list Z),
    Forall (fun x => 0 <= x < 256) (elements en) ->
    NoDup (elements en) \/ (length (elements en) < 256)%nat ->
    Forall (fun x => 0 <= x < 256) S ->
    exists vs,
      select_pack en S = Some vs
      /\ length vs = length S
      /\ (forall k, (k < length S)%nat ->
                    select en (nth k S 0) = Some (nth k vs t_zero, en))
      /\ (forall k, (k < length S)%nat -> ~ In (nth k S 0) (elements en) ->
                    nth k vs t_zero = t_zero).
Proof.
  intros T NT en S Hr Hshape HS.
  induction S as [|s S IH].
  - exists []. simpl. repeat split; intros k Hk; lia.
  - inversion HS as [|? ? Hs HS']; subst.
    destruct (IH HS') as [vs [Hvs [Hlen [Hnth Hzero]]]].
    destruct (select_defined en s Hr Hs Hshape) as [v [Hv [Hv0 _]]].
    exists (v :: vs).
    split; [|split; [|split]].
    + cbn [select_pack]. now rewrite Hv, Hvs.
    + simpl. now rewrite Hlen.
    + intros [|k] Hk; simpl in *; [exact Hv | apply Hnth; lia].
    + intros [|k] Hk Hni; simpl in *; [now apply Hv0 | apply Hzero; [lia | exact Hni]].
Qed.

Lemma select_pack_gathers_witness :
  exists vs,
    select_pack (mk_entity [0; 3; 5] [1%Qc; Q2Qc 2; Q2Qc 3]) [5; 6] = Some vs
    /\ length vs = 2%nat.
Proof.
  destruct (select_pack_gathers Qc Numeric_Qc
              (mk_entity [0; 3; 5] [1%Qc; Q2Qc 2; Q2Qc 3]) [5; 6]
              ltac:(repeat constructor; lia)
              ltac:(right; simpl; lia)
              ltac:(repeat constructor; lia)) as [vs [Hvs [Hlen _]]].
  exists vs. split; [exact Hvs | exact Hlen].
Defined.

(** ** The loop counter of [select] *)

(** With 256 or more slots the [uint8_t] counter never equals
    [elements.size()]: looking up a tag that is absent, the loop of
    [select] does not end, whatever number of iterations it is given. *)
Theorem select_loop_never_ends :
  forall (T : Type) (NT : Numeric T) (en : entity T) (e : Z),
    (256 <= length (elements en))%nat ->
    ~ In e (elements en) ->
    forall (fuel : nat) (i : Z), 0 <= i < 256 -> select_loop fuel en e i = None.
Proof.
  intros T NT en e Hlen Hni fuel.
  induction fuel as [|fuel IH]; intros i Hi; simpl; [reflexivity|].
  destruct (Z.eqb_spec i (Z.of_nat (length (elements en)))); [lia|].
  destruct (Z.eqb_spec (nth (Z.to_nat i) (elements en) 0) e) as [Heq|_].
  - exfalso. apply Hni. rewrite <- Heq. apply nth_In. lia.
  - apply IH. unfold u8. apply Z.mod_pos_bound. lia.
Qed.

Lemma select_loop_never_ends_witness :
  select_loop 1000 (mk_entity (repeat 0 256) (repeat 1%Qc 256)) 1 0 = None.
Proof.
  apply (select_loop_never_ends Qc Numeric_Qc
           (mk_entity (repeat 0 256) (repeat 1%Qc 256)) 1).
  - cbn [elements]. rewrite repeat_length. lia.
  - cbn [elements]. intros Hin. apply repeat_spec in Hin. discriminate Hin.
  - lia.
Defined.

(** ** What [construct_ie] denotes *)

Lemma construct_ie_unpack (E : list Z) (id : Z) :
  unpack (ie E id)
  = map (fun kb => (snd kb, [(one, [mk_ind (u32 (id + Z.of_nat (fst kb))) one])]))
        (combine (seq 0 (length E)) E).
Proof.
  unfold unpack.
  change (terms (ie E id))
    with (map (fun ne => mk_term 1 (fst ne) (snd ne)) (combine (seq 0 (length E)) E)).
  rewrite map_map. apply map_ext_in.
  intros [k b] Hkb. apply in_combine_l in Hkb. apply in_seq in Hkb.
  unfold unpack_term, term_mons. cbn [term_element term_count term_mon_offset fst snd].
  change (mons (ie E id)) with (map (fun n => mk_mon one one 1 n) (seq 0 (length E))).
  rewrite skipn_map, skipn_seq.
  replace (length E - k)%nat with (S (length E - k - 1)) by lia.
  cbn [seq map firstn]. unfold unpack_mon. cbn [mon_q].
  unfold ie. rewrite Nat.add_0_l, construct_ie_mon_inds by lia. reflexivity.
Qed.

Lemma map_snd_combine_seq (E : list Z) (s : nat) :
  map snd (combine (seq s (length E)) E) = E.
Proof.
  revert s. induction E as [|b E IH]; intros s; [reflexivity|].
  simpl. now rewrite IH.
Qed.

(** Read term by term, [entity::ie(id)] is the sum over the blades of the
    pack of the k-th blade times the k-th input of the range starting at
    [id]: one term per blade, in the order of the pack, each with the
    single monomial [1 * x_(id+k)]. *)
Theorem construct_ie_denotes :
  forall (E : list Z) (id : Z),
    unpack (ie E id)
    = map (fun kb => (snd kb, [(one, [mk_ind (u32 (id + Z.of_nat (fst kb))) one])]))
          (combine (seq 0 (length E)) E)
    /\ slots (unpack (ie E id)) = E.
Proof.
  intros E id. split; [apply construct_ie_unpack|].
  unfold slots. rewrite construct_ie_unpack, map_map. cbn [fst].
  apply map_snd_combine_seq.
Qed.

(** ** Round trip of a plane *)

Lemma plane_canonical (a b c d : Z) :
  canonical [(1, [(one, [mk_ind a one])]); (2, [(one, [mk_ind b one])]);
             (4, [(one, [mk_ind c one])]); (8, [(one, [mk_ind d one])])]
  = [(1, [(one, [mk_ind a one])]); (2, [(one, [mk_ind b one])]);
     (4, [(one, [mk_ind c one])]); (8, [(one, [mk_ind d one])])].
Proof. vm_compute. reflexivity. Qed.

Lemma select_pack_plane {T : Type} {NT : Numeric T} (d0 d1 d2 d3 : T) :
  select_pack (mk_entity [1; 2; 4; 8] [d0; d1; d2; d3]) [1; 2; 4; 8]
  = Some [d0; d1; d2; d3].
Proof. reflexivity. Qed.

(** A plane built from (d, x, y, z), turned into its multivector by
    [plane::ie], evaluated in exact arithmetic against the plane's own
    data and converted back by [plane(entity)] is the plane (d, x, y, z)
    again, for every id. *)
Theorem plane_round_trip :
  forall (id : Z) (d x y z : Qc),
    plane.of_entity (evaluate (plane.ie id) id (plane.data (plane.mk d x y z)))
    = Some (plane.mk d x y z).
Proof.
  intros id d x y z. unfold evaluate.
  change (plane.ie id) with (ie [1; 2; 4; 8] id).
  rewrite construct_ie_unpack.
  cbn [length seq combine map fst snd Z.of_nat Pos.of_succ_nat Pos.succ].
  rewrite plane_canonical.
  unfold eval. cbn [slots map fst snd].
  rewrite !eval_plus_one.
  unfold plane.of_entity, plane.selected. rewrite select_pack_plane.
  rewrite !inputs_at_offset by lia.
  reflexivity.
Qed.

(** ** NaN and infinity in IEEE arithmetic *)

Section Ieee.
Variables prec emax : Z.

Lemma SFmul_nan_r (x : spec_float) : SFmul prec emax x S754_nan = S754_nan.
Proof. destruct x; reflexivity. Qed.

Lemma SFadd_nan_r (x : spec_float) : SFadd prec emax x S754_nan = S754_nan.
Proof. destruct x; reflexivity. Qed.

Lemma SFdiv_nan_r (x : spec_float) : SFdiv prec emax x S754_nan = S754_nan.
Proof. destruct x; reflexivity. Qed.

Lemma scaled_by_infinity (x : spec_float) (s : bool) :
  non_finite (SFmul prec emax x (S754_infinity s)) = true.
Proof. destruct x; reflexivity. Qed.

(** Without an [e123] slot the weight read by [point(entity)] is [T{}],
    its reciprocal an infinity, and no coordinate is a finite number. *)
Lemma point_without_e123 (m : positive) (ex : Z) (en : entity spec_float) :
  t_one (Numeric := Numeric_ieee prec emax) = S754_finite false m ex ->
  Forall (fun x => 0 <= x < 256) (elements en) ->
  NoDup (elements en) \/ (length (elements en) < 256)%nat ->
  ~ In e123 (elements en) ->
  exists p, point.of_entity (NT := Numeric_ieee prec emax) en = Some p
            /\ non_finite (point.x p) = true
            /\ non_finite (point.y p) = true
            /\ non_finite (point.z p) = true.
Proof.
  intros Hone Hr Hshape Hni.
  destruct (select_defined (NT := Numeric_ieee prec emax) en 7 Hr ltac:(lia) Hshape)
    as [i0 [H0 _]].
  destruct (select_defined (NT := Numeric_ieee prec emax) en 11 Hr ltac:(lia) Hshape)
    as [i1 [H1 _]].
  destruct (select_defined (NT := Numeric_ieee prec emax) en 13 Hr ltac:(lia) Hshape)
    as [i2 [H2 _]].
  destruct (select_defined (NT := Numeric_ieee prec emax) en 14 Hr ltac:(lia) Hshape)
    as [i3 [H3 [Hz _]]].
  specialize (Hz Hni). subst i3.
  unfold point.of_entity, point.selected. cbn [select_pack].
  rewrite H0, H1, H2, H3.
  eexists. split; [reflexivity|].
  cbn [point.x point.y point.z]. rewrite Hone.
  cbn [t_div t_mul t_opp t_zero Numeric_ieee SFdiv xorb].
  rewrite !scaled_by_infinity. repeat split.
Qed.
End Ieee.

(** [rotor::normalize] and [translator::normalize] spread a NaN: when one
    of [x], [y], [z] is NaN, all three come out NaN, in IEEE arithmetic
    of any format and whatever the other two components are. *)
Theorem normalize_propagates_nan :
  forall (prec emax : Z) (c s a b : spec_float),
    let rn := rotor.normalize (FT := Floating_ieee prec emax) in
    let tn := translator.normalize (FT := Floating_ieee prec emax) in
    rn (rotor.mk c s S754_nan a b) = rotor.mk c s S754_nan S754_nan S754_nan
    /\ rn (rotor.mk c s a S754_nan b) = rotor.mk c s S754_nan S754_nan S754_nan
    /\ rn (rotor.mk c s a b S754_nan) = rotor.mk c s S754_nan S754_nan S754_nan
    /\ tn (translator.mk c S754_nan a b)
       = translator.mk c S754_nan S754_nan S754_nan
    /\ tn (translator.mk c a S754_nan b)
       = translator.mk c S754_nan S754_nan S754_nan
    /\ tn (translator.mk c a b S754_nan)
       = translator.mk c S754_nan S754_nan S754_nan.
Proof.
  intros prec emax c s a b rn tn.
  unfold rn, tn, rotor.normalize, translator.normalize.
  cbn -[SFmul SFadd SFsqrt SFdiv binary_normalize].
  repeat split;
    rewrite ?SFmul_nan_r, ?SFadd_nan_r; cbn [SFmul SFadd SFsqrt];
    rewrite ?SFadd_nan_r; cbn [SFsqrt];
    rewrite ?SFdiv_nan_r, ?SFmul_nan_r; reflexivity.
Qed.

(** [point(entity)] divides by the [e123] coefficient without a test: for
    an entity with distinct tags (or fewer than 256 tags) that has no
    [e123] slot - a motor, a plane, a line - the conversion yields, in
    [float] and in [double] arithmetic, a point none of whose coordinates
    is finite (each is NaN or an infinity). *)
Theorem point_of_entity_without_e123 :
  forall (en : entity spec_float),
    Forall (fun x => 0 <= x < 256) (elements en) ->
    NoDup (elements en) \/ (length (elements en) < 256)%nat ->
    ~ In e123 (elements en) ->
    (exists p, point.of_entity (NT := binary32) en = Some p
               /\ non_finite (point.x p) = true
               /\ non_finite (point.y p) = true
               /\ non_finite (point.z p) = true)
    /\ (exists p, point.of_entity (NT := binary64) en = Some p
                  /\ non_finite (point.x p) = true
                  /\ non_finite (point.y p) = true
                  /\ non_finite (point.z p) = true).
Proof.
  intros en Hr Hshape Hni. split.
  - apply (point_without_e123 24 128 8388608 (-23)); auto.
  - apply (point_without_e123 53 1024 4503599627370496 (-52)); auto.
Qed.

Lemma point_of_entity_without_e123_witness :
  exists p,
    point.of_entity (NT := binary32)
      (mk_entity motor_elements (map f32 [1; 2; 3; 4; 5; 6; 7; 8])) = Some p
    /\ non_finite (point.x p) = true
    /\ non_finite (point.y p) = true
    /\ non_finite (point.z p) = true.
Proof.
  apply (proj1 (point_of_entity_without_e123
                  (mk_entity motor_elements (map f32 [1; 2; 3; 4; 5; 6; 7; 8]))
                  ltac:(repeat constructor; lia)
                  ltac:(right; simpl; lia)
                  ltac:(simpl; unfold e123; intuition lia))).
Defined.

(** ** The results of [exp] and [log] *)

Lemma log_slots :
  Forall (fun a =>
            slots (build a
                     [unpack (ie l2_elements 0); unpack (line.ie 2);
                      unpack (scalar_ie 8); unpack (scalar_ie 9)]
                     (times (times (plus (arg 2) (times (arg 3) ps)) (arg 0))
                            (arg 1)))
            = [3; 5; 6; 9; 10; 12]) pga_algebras.
Proof. each_layout. Qed.

Lemma exp_slots :
  Forall (fun a =>
            slots (build a
                     [unpack (ie l2_elements 0); unpack (ie l2_elements 2);
                      unpack (ie l2_elements 4); unpack (line.ie 6)]
                     (plus (arg 0) (times (times (arg 1) (arg 2)) (arg 3))))
            = motor_elements) pga_algebras.
Proof. each_layout. Qed.

(** [line(entity)] applied to an entity of the six bivector blades. *)
Lemma line_of_bivector_entity {T : Type} {NT : Numeric T} (d : list T) :
  exists l, line.of_entity (mk_entity [3; 5; 6; 9; 10; 12] d) = Some l
            /\ line.dz l = t_zero.
Proof. eexists. split; reflexivity. Qed.

Lemma log_returns_line {T : Type} {NT : Numeric T} {FT : Floating T}
      {TT : Transcendental T} (d : list T) (a : algebra) :
  In a pga_algebras ->
  exists l, fst (log a (mk_entity motor_elements d)) = Some l
            /\ line.dz l = t_zero.
Proof.
  intros Ha.
  assert (Hs := proj1 (Forall_forall _ _) log_slots a Ha). cbv beta in Hs.
  unfold log.
  change (select_pack (mk_entity motor_elements d) [3; 5; 6; 9; 10; 12])
    with (Some [nth 1 d t_zero; nth 2 d t_zero; nth 3 d t_zero;
                nth 4 d t_zero; nth 5 d t_zero; nth 6 d t_zero]).
  cbn [line.of_array].
  unfold bind, compute_traced, ret. cbn [fst].
  match goal with
  | |- context [line.of_entity (compute a ?x ?ops)] => set (r := compute a x ops)
  end.
  assert (Hr : elements r = [3; 5; 6; 9; 10; 12]).
  { unfold r, compute. rewrite (proj1 (eval_elements _ _)). exact Hs. }
  destruct r as [els dat]. cbn [elements] in Hr. subst els.
  apply line_of_bivector_entity.
Qed.

(** [log] returns a line for every motor, and the [dz] of that line is
    always [T{}]: the entity computed at the end has the six bivector
    blades, and [line(entity)] fills [dz] from the [e2] slot, which that
    entity does not have.  This holds in every layout of the signature. *)
Theorem log_loses_dz :
  forall (T : Type) (NT : Numeric T) (FT : Floating T) (TT : Transcendental T)
         (d : list T),
    Forall (fun a =>
              exists l, fst (log a (mk_entity motor_elements d)) = Some l
                        /\ line.dz l = t_zero) pga_algebras.
Proof.
  intros T NT FT TT d. apply Forall_forall. intros a Ha.
  now apply log_returns_line.
Qed.

(** [exp] returns the entity of its last engine call, whose blades are
    those of a motor. *)
Lemma exp_result {T : Type} {NT : Numeric T} {FT : Floating T}
      {TT : Transcendental T} (l : line.line T) (a : algebra) :
  In a pga_algebras ->
  exists (ops : list (operand T)) (s : smv),
    fst (exp a l) = eval (inputs_at 0 (concat (map op_data ops))) s
    /\ s = build a [unpack (ie l2_elements 0); unpack (ie l2_elements 2);
                    unpack (ie l2_elements 4); unpack (line.ie 6)]
                   (plus (arg 0) (times (times (arg 1) (arg 2)) (arg 3)))
    /\ slots s = motor_elements
    /\ nth 8 (concat (map op_data ops)) t_zero = line.dz l.
Proof.
  intros Ha.
  assert (Hs := proj1 (Forall_forall _ _) exp_slots a Ha). cbv beta in Hs.
  unfold exp, bind, compute_traced. cbn [fst].
  match goal with
  | |- context [compute a ?x ?ops = _] => exists ops
  end.
  eexists. split; [reflexivity|]. split; [reflexivity|].
  split; [exact Hs | reflexivity].
Qed.

(** The entity [exp] returns for a line has exactly the eight blades of a
    motor, each once, and eight coefficients, in every layout of the
    signature. *)
Theorem exp_fills_motor :
  forall (T : Type) (NT : Numeric T) (FT : Floating T) (TT : Transcendental T)
         (l : line.line T),
    Forall (fun a =>
              (forall b, In b (elements (fst (exp a l))) <-> In b motor_elements)
              /\ NoDup (elements (fst (exp a l)))
              /\ length (data_ (fst (exp a l))) = 8%nat) pga_algebras.
Proof.
  intros T NT FT TT l. apply Forall_forall. intros a Ha.
  destruct (exp_result l a Ha) as [ops [s [Hexp [_ [Hs _]]]]].
  rewrite Hexp, (proj1 (eval_elements _ _)), (proj2 (eval_elements _ _)), Hs.
  split; [tauto|]. split; [|reflexivity].
  unfold motor_elements. repeat constructor; simpl; intuition lia.
Qed.

(** ** [exp] after [log] *)

Lemma coefficient_of_absent (s : smv) (b : Z) :
  ~ In b (slots s) -> coefficient_of s b = [].
Proof.
  induction s as [|[b' p] s IH]; intros Hni; [reflexivity|].
  simpl in *. destruct (Z.eqb_spec b' b) as [Heq|_]; [tauto|].
  apply IH. tauto.
Qed.

Lemma coefficient_of_nth (s : smv) (b : Z) :
  NoDup (slots s) ->
  forall i, (i < length s)%nat -> nth i (slots s) 0 = b ->
            coefficient_of s b = snd (nth i s (0, [])).
Proof.
  induction s as [|[b' p] s IH]; intros Hnd i Hi Hat; simpl in Hi; [lia|].
  cbn [slots map fst] in Hnd. apply NoDup_cons_iff in Hnd.
  destruct Hnd as [Hni Hnd'].
  destruct i as [|i]; cbn [slots map fst nth coefficient_of snd length] in *.
  - rewrite Hat. now rewrite Z.eqb_refl.
  - destruct (Z.eqb_spec b' b) as [Heq|_].
    + exfalso. apply Hni. rewrite Heq, <- Hat. apply nth_In.
      rewrite length_map. now apply Nat.succ_lt_mono.
    + apply IH; [exact Hnd' | now apply Nat.succ_lt_mono | exact Hat].
Qed.

(** Selecting a blade from an evaluated multivector gives the value of
    the monomials under that blade. *)
Lemma select_eval {T : Type} {NT : Numeric T} (input : Z -> T) (s : smv) (b : Z) :
  Forall (fun x => 0 <= x < 256) (slots s) ->
  NoDup (slots s) ->
  0 <= b < 256 ->
  select (eval input s) b
  = Some (eval_poly input (coefficient_of s b), eval input s).
Proof.
  intros Hr Hnd Hb.
  destruct (select_defined (eval input s) b) as [v [Hv [Habs Hpres]]];
    [exact Hr | exact Hb | left; exact Hnd |].
  rewrite Hv. f_equal. f_equal.
  destruct (in_dec Z.eq_dec b (slots s)) as [Hin|Hni].
  - destruct (Hpres Hin) as [i [Hi [Hat ->]]]. cbn [elements eval] in Hi, Hat.
    unfold slots in Hi. rewrite length_map in Hi.
    rewrite (coefficient_of_nth s b Hnd i Hi Hat).
    cbn [data_ eval].
    change t_zero with ((fun t : sterm => eval_poly input (snd t)) (0, [])).
    now rewrite map_nth.
  - rewrite (Habs Hni), (coefficient_of_absent s b Hni). reflexivity.
Qed.

Lemma exp_e12_coefficient :
  Forall (fun a =>
            coefficient_of
              (build a [unpack (ie l2_elements 0); unpack (ie l2_elements 2);
                        unpack (ie l2_elements 4); unpack (line.ie 6)]
                       (plus (arg 0) (times (times (arg 1) (arg 2)) (arg 3))))
              e12
            = [(one, [mk_ind 2 one; mk_ind 4 one; mk_ind 8 one])])
         pga_algebras.
Proof. each_layout. Qed.

Lemma times_zero (prec emax : Z) (x : spec_float) :
  zero_or_nan (SFmul prec emax x (S754_zero false)) = true.
Proof. destruct x; reflexivity. Qed.

Lemma zero_or_nan_differs (v : spec_float) (s : bool) (m : positive) (ex : Z) :
  zero_or_nan v = true -> SFeqb v (S754_finite s m ex) = false.
Proof. destruct v as [sv|sv| |sv mv ev]; try discriminate; destruct s; reflexivity. Qed.

(** C4, evaluated: [exp (log m)] is not [m].  [log] hands its result to
    [line(entity)], which leaves [dz] at [T{}]; the [e12] coefficient of
    the motor [exp] then computes is the one monomial
    [ideal[0] * inv_norm[0] * dz], in IEEE arithmetic of any format a zero
    or NaN, unequal to every finite non-zero number - while the [e12]
    coefficient of a motor [rotor * translator] is the rotor's
    [sin_theta].  This holds for every motor, in every layout of the
    signature and whatever [cos], [sin], [atan2] return. *)
Theorem exp_log_loses_e12 :
  forall (prec emax : Z) (TT : Transcendental spec_float) (d : list spec_float),
    Forall (fun a =>
      coefficient_of
        (build a [unpack (rotor.ie 0); unpack (translator.ie 5)]
                 (times (arg 0) (arg 1))) e12
      = [(one, [mk_ind 1 one])]
      /\ exists l v,
          fst (log (NT := Numeric_ieee prec emax) (FT := Floating_ieee prec emax)
                   a (mk_entity motor_elements d)) = Some l
          /\ select (NT := Numeric_ieee prec emax)
                    (fst (exp (NT := Numeric_ieee prec emax)
                              (FT := Floating_ieee prec emax) a l)) e12
             = Some (v, fst (exp (NT := Numeric_ieee prec emax)
                                 (FT := Floating_ieee prec emax) a l))
          /\ zero_or_nan v = true
          /\ forall (s : bool) (m : positive) (ex : Z),
               SFeqb v (S754_finite s m ex) = false) pga_algebras.
Proof.
  intros prec emax TT d. apply Forall_forall. intros a Ha.
  split.
  { revert a Ha. apply Forall_forall. each_layout. }
  destruct (log_returns_line (NT := Numeric_ieee prec emax)
              (FT := Floating_ieee prec emax) d a Ha) as [l [Hl Hdz]].
  destruct (exp_result (NT := Numeric_ieee prec emax)
              (FT := Floating_ieee prec emax) l a Ha)
    as [ops [s [Hexp [Hs [Hslots Hin]]]]].
  assert (Hc := proj1 (Forall_forall _ _) exp_e12_coefficient a Ha).
  cbv beta in Hc. rewrite <- Hs in Hc.
  exists l.
  exists (eval_poly (NT := Numeric_ieee prec emax)
            (inputs_at (NT := Numeric_ieee prec emax) 0 (concat (map op_data ops)))
            (coefficient_of s e12)).
  split; [exact Hl|].
  assert (Hz : zero_or_nan
                 (eval_poly (NT := Numeric_ieee prec emax)
                    (inputs_at (NT := Numeric_ieee prec emax) 0
                               (concat (map op_data ops)))
                    (coefficient_of s e12)) = true).
  { rewrite Hc. unfold eval_poly, eval_mon.
    cbn [fold_left snd fst ind_id ind_degree].
    change (exponent one) with 1%nat. cbn [t_pow].
    replace (inputs_at (NT := Numeric_ieee prec emax) 0 (concat (map op_data ops)) 8)
      with (S754_zero false).
    - cbn [t_mul Numeric_ieee]. apply times_zero.
    - unfold inputs_at. change (Z.to_nat (u32 (8 - 0))) with 8%nat.
      rewrite Hin, Hdz. reflexivity. }
  split; [|split; [exact Hz | intros; now apply zero_or_nan_differs]].
  rewrite Hexp. apply select_eval.
  - rewrite Hslots. unfold motor_elements. repeat constructor; lia.
  - rewrite Hslots. unfold motor_elements. repeat constructor; simpl; intuition lia.
  - unfold e12. lia.
Qed.
